(** * kdbpy.kdb: credentials, q process supervision and session coordination

    A shallow embedding of [kdbpy/kdb.py].  Python objects live in a store
    and are named by references, so that the sharing the module relies on
    (one [Credentials] object held by a [KQ], its [Q] and its [KDB]; the
    class-level [Q.processes] dictionary) is the sharing of the model.
    Methods are computations in a state-and-exception monad over the
    store; what the interpreter, the operating system and the q server
    contribute is collected in the class [Env]. *)

From Stdlib Require Import ZArith Permutation.
From stdpp Require Import gmap strings list pretty.

Local Open Scope string_scope.
Local Open Scope list_scope.

(** ** Exceptions and values *)

Inductive ValueErrorMsg : Type :=
| exhausted_all_designated_ports
| unable_to_connect (ntries : nat).

(** The exceptions the module raises or lets through. *)
Inductive Exc : Type :=
| PortInUse (port : Z)
| PortIsFixed
| StopIteration
| ValueError (msg : ValueErrorMsg)
| AttributeError
| TypeError
| KeyError
| OSError (msg : string)
| NoSuchProcess
| AccessDenied
| socket_error
| QException (msg : string).

(** Values that travel between the session and the q server.  [QTemporal]
    is qpython's wrapper around a numpy temporal scalar; [PdTimestamp t]
    and [PdTimedelta t] stand for [pd.Timestamp] and [pd.Timedelta]
    applied to the numpy scalar with tick count [t]. *)
Inductive PyVal : Type :=
| PyNone
| PyBool (b : bool)
| PyInt (n : Z)
| PyStr (s : string)
| NpArray (xs : list Z)
| DataFrame (columns : list (string * list Z))
| NpDatetime64 (ticks : Z)
| NpTimedelta64 (ticks : Z)
| QTemporal (raw : PyVal)
| PdTimestamp (ticks : Z)
| PdTimedelta (ticks : Z).

(** The first argument of [eval]: a q expression, or a Python callable. *)
Inductive Expr : Type :=
| ExprStr (s : string)
| ExprCallable (f : list PyVal -> Exc + PyVal).

(** The [start] argument of [Q.start] and [KQ.start]: [True], ['restart'],
    or anything else ([False]). *)
Inductive StartArg : Type := StartTrue | StartRestart | StartFalse.

(** ** Object layouts *)

(** References into the object tables of the store, and process handles. *)
Abbreviation cref := nat (only parsing).    (* a Credentials object *)
Abbreviation iref := nat (only parsing).    (* a list iterator *)
Abbreviation kdbref := nat (only parsing).  (* a KDB object *)
Abbreviation kqref := nat (only parsing).   (* a KQ object *)
Abbreviation pid := nat (only parsing).     (* a psutil process *)

(** [Credentials]: the five attributes of [__slots__], and [ports], the
    one attribute that is stored in the instance [__dict__].  The class
    assigns [self.ports] and reads [self.__dict__], so its base
    [PrettyMixin] leaves instances their [__dict__]; the attributes named
    in [__slots__] are kept in the slots and are not entries of
    [__dict__]. *)
Record Credentials : Type := mkCredentials {
  host : string;
  port : Z;
  username : string;
  password : string;
  is_fixed_port : bool;
  ports : option iref
}.

(** The tuple [__hash__] builds from [__slots__]. *)
Definition SlotTuple : Type := string * Z * string * string * bool.

Definition slots (c : Credentials) : SlotTuple :=
  (host c, port c, username c, password c, is_fixed_port c).

Record Q : Type := mkQ {
  q_credentials : cref;
  q_path : string
}.

(** A [qconnection.QConnection]: the endpoint it was built for and whether
    its [_connection] is set. *)
Record QConnection : Type := mkQConnection {
  conn_host : string;
  conn_port : Z;
  conn_username : string;
  conn_password : string;
  conn_open : bool
}.

Record KDB : Type := mkKDB {
  kdb_credentials : cref;
  kdb_q : option QConnection
}.

Record KQ : Type := mkKQ {
  kq_verbose : bool;
  kq_credentials : cref;
  kq_q : Q;
  kq_kdb : kdbref;
  _loaded : gset string
}.

(** A process as [psutil] shows it. *)
Record OsProc : Type := mkOsProc {
  os_pid : pid;
  os_ppid : pid;
  os_name : string;
  os_name_denied : bool;     (* [name()] raises AccessDenied *)
  os_conns_denied : bool;    (* [connections()] raises AccessDenied *)
  os_laddr_ports : list Z;   (* local ports of its connections *)
  os_protected : bool        (* [terminate()] raises AccessDenied *)
}.

(** A synchronous request as it goes out on a connection. *)
Record Request : Type := mkRequest {
  rq_port : Z;
  rq_expr : string;
  rq_args : list PyVal
}.

(** An entry of the dictionary [Q.processes]: the key object, the hash the
    key had when it was stored, and the process handle. *)
Record ProcEntry : Type := mkProcEntry {
  pe_key : cref;
  pe_hash : Z;
  pe_proc : pid
}.

(** ** The store *)

Record World : Type := mkWorld {
  creds : list Credentials;      (* Credentials objects *)
  iters : list (list Z);         (* list iterators: the items still to come *)
  kdbs : list KDB;               (* KDB objects *)
  kqs : list KQ;                 (* KQ objects *)
  processes : list ProcEntry;    (* Q.processes, shared by every Q *)
  ps : list OsProc;              (* the process table *)
  next_pid : pid;
  atexit : list Q;               (* receivers of the registered [stop] *)
  rng : nat;                     (* state of the [random] module *)
  wire : list Request            (* requests sent to q servers, oldest first *)
}.

Definition with_creds (x : list Credentials) (w : World) : World :=
  mkWorld x (iters w) (kdbs w) (kqs w) (processes w) (ps w) (next_pid w)
          (atexit w) (rng w) (wire w).
Definition with_iters (x : list (list Z)) (w : World) : World :=
  mkWorld (creds w) x (kdbs w) (kqs w) (processes w) (ps w) (next_pid w)
          (atexit w) (rng w) (wire w).
Definition with_kdbs (x : list KDB) (w : World) : World :=
  mkWorld (creds w) (iters w) x (kqs w) (processes w) (ps w) (next_pid w)
          (atexit w) (rng w) (wire w).
Definition with_kqs (x : list KQ) (w : World) : World :=
  mkWorld (creds w) (iters w) (kdbs w) x (processes w) (ps w) (next_pid w)
          (atexit w) (rng w) (wire w).
Definition with_processes (x : list ProcEntry) (w : World) : World :=
  mkWorld (creds w) (iters w) (kdbs w) (kqs w) x (ps w) (next_pid w)
          (atexit w) (rng w) (wire w).
Definition with_ps (x : list OsProc) (w : World) : World :=
  mkWorld (creds w) (iters w) (kdbs w) (kqs w) (processes w) x (next_pid w)
          (atexit w) (rng w) (wire w).
Definition with_next_pid (x : pid) (w : World) : World :=
  mkWorld (creds w) (iters w) (kdbs w) (kqs w) (processes w) (ps w) x
          (atexit w) (rng w) (wire w).
Definition with_atexit (x : list Q) (w : World) : World :=
  mkWorld (creds w) (iters w) (kdbs w) (kqs w) (processes w) (ps w) (next_pid w)
          x (rng w) (wire w).
Definition with_rng (x : nat) (w : World) : World :=
  mkWorld (creds w) (iters w) (kdbs w) (kqs w) (processes w) (ps w) (next_pid w)
          (atexit w) x (wire w).
Definition with_wire (x : list Request) (w : World) : World :=
  mkWorld (creds w) (iters w) (kdbs w) (kqs w) (processes w) (ps w) (next_pid w)
          (atexit w) (rng w) x.

Definition empty_world : World :=
  mkWorld [] [] [] [] [] [] 1%nat [] 0%nat [].

(** ** The monad of method bodies

    A computation returns, raises, or is [Stuck]: it followed a reference
    that names no object, or a loop ran out of the fuel it was given.
    Python has neither, and the theorems show the methods do not get
    there.  A raise keeps the store as it was when the exception left. *)

Inductive Outcome (A : Type) : Type :=
| Ok (a : A)
| Raise (e : Exc)
| Stuck.
Arguments Ok {A} a.
Arguments Raise {A} e.
Arguments Stuck {A}.

Definition M (A : Type) : Type := World -> Outcome A * World.

Definition ret {A} (a : A) : M A := fun w => (Ok a, w).
Definition raise {A} (e : Exc) : M A := fun w => (Raise e, w).
Definition stuck {A} : M A := fun w => (Stuck, w).

Definition bind {A B} (m : M A) (k : A -> M B) : M B :=
  fun w =>
    match m w with
    | (Ok a, w') => k a w'
    | (Raise e, w') => (Raise e, w')
    | (Stuck, w') => (Stuck, w')
    end.

Notation "x <- m ;; k" := (bind m (fun x => k))
  (at level 100, m at next level, right associativity).
Notation "m ;;; k" := (bind m (fun _ => k))
  (at level 100, right associativity).

(** [try: m except ...]: [handler e] is the body of the [except] clause
    that catches [e], or [None] when no clause does. *)
Definition try_except {A} (m : M A) (handler : Exc -> option (M A)) : M A :=
  fun w =>
    match m w with
    | (Raise e, w') =>
        match handler e with
        | Some h => h w'
        | None => (Raise e, w')
        end
    | r => r
    end.

Definition get_world : M World := fun w => (Ok w, w).
Definition modify (f : World -> World) : M unit := fun w => (Ok tt, f w).

(** Following a reference into one of the object tables. *)
Definition deref {A} (table : World -> list A) (r : nat) : M A :=
  fun w =>
    match table w !! r with
    | Some x => (Ok x, w)
    | None => (Stuck, w)
    end.

Definition alloc_cred (c : Credentials) : M cref :=
  fun w => (Ok (length (creds w)), with_creds (creds w ++ [c]) w).
Definition alloc_kdb (k : KDB) : M kdbref :=
  fun w => (Ok (length (kdbs w)), with_kdbs (kdbs w ++ [k]) w).
Definition alloc_kq (k : KQ) : M kqref :=
  fun w => (Ok (length (kqs w)), with_kqs (kqs w ++ [k]) w).

Definition update_cred (r : cref) (f : Credentials -> Credentials) : M unit :=
  c <- deref creds r ;;
  modify (fun w => with_creds (<[r := f c]> (creds w)) w).
Definition update_kdb (r : kdbref) (f : KDB -> KDB) : M unit :=
  k <- deref kdbs r ;;
  modify (fun w => with_kdbs (<[r := f k]> (kdbs w)) w).
Definition update_kq (r : kqref) (f : KQ -> KQ) : M unit :=
  k <- deref kqs r ;;
  modify (fun w => with_kqs (<[r := f k]> (kqs w)) w).

Definition set_port (p : Z) (c : Credentials) : Credentials :=
  mkCredentials (host c) p (username c) (password c) (is_fixed_port c) (ports c).
Definition set_ports (i : option iref) (c : Credentials) : Credentials :=
  mkCredentials (host c) (port c) (username c) (password c) (is_fixed_port c) i.
Definition set_kdb_q (q : option QConnection) (k : KDB) : KDB :=
  mkKDB (kdb_credentials k) q.
Definition set_loaded (s : gset string) (k : KQ) : KQ :=
  mkKQ (kq_verbose k) (kq_credentials k) (kq_q k) (kq_kdb k) s.

(** ** List iterators *)

(** [iter(items)]. *)
Definition iter (items : list Z) : M iref :=
  fun w => (Ok (length (iters w)), with_iters (iters w ++ [items]) w).

(** [next(it)]. *)
Definition next (it : iref) : M Z :=
  fun w =>
    match iters w !! it with
    | None => (Stuck, w)
    | Some [] => (Raise StopIteration, w)
    | Some (x :: rest) => (Ok x, with_iters (<[it := rest]> (iters w)) w)
    end.

(** [list(it)]: everything still to come, and the iterator is left empty. *)
Definition list_of_iter (it : iref) : M (list Z) :=
  fun w =>
    match iters w !! it with
    | None => (Stuck, w)
    | Some items => (Ok items, with_iters (<[it := []]> (iters w)) w)
    end.

(** ** The environment *)

(** What the model takes from outside [kdb.py]. *)
Class Env : Type := {
  (** the builtin [hash], on the tuples [__hash__] builds *)
  py_hash : SlotTuple -> Z;
  (** [kdbpy.util.hostname] and [getpass.getuser()] *)
  hostname : string;
  getuser : string;
  (** [random.shuffle], by the state of the generator: some rearrangement *)
  random_shuffle : nat -> list Z -> list Z;
  random_shuffle_perm : forall s l, Permutation (random_shuffle s l) l;
  (** [kdbpy.util.normpath], [os.path.abspath], [os.path.join],
      [os.path.exists] *)
  normpath : string -> string;
  abspath : string -> string;
  path_join : string -> string -> string;
  path_exists : string -> bool;
  (** [os.path.join(os.path.dirname(kdbpy.__file__), 'q')] *)
  libpath : string;
  (** [platform.system().lower()] and the executables [which] finds on
      the search path *)
  arch_name : string;
  on_path : string -> option string;
  (** whether the [i]-th [open()] of a starting connection completes *)
  q_open : World -> QConnection -> nat -> bool;
  (** the q server's answer to a synchronous request *)
  q_sync : World -> Request -> Exc + PyVal
}.

(** ** Credentials *)

(** [DEFAULT_PORT_RANGE]. *)
Definition DEFAULT_PORT_RANGE : Z * Z := (47823, 47923)%Z.

(** [list(range(lo, hi))]. *)
Definition range (lo hi : Z) : list Z := seqZ lo (hi - lo).

Module Credentials.
Section Methods.
Context `{Env}.

(** [get_ports]: the candidate ports in shuffled order, as an iterator. *)
Definition get_ports : M iref :=
  w <- get_world ;;
  let ports := range (fst DEFAULT_PORT_RANGE) (snd DEFAULT_PORT_RANGE) in
  let ports := random_shuffle (rng w) ports in
  modify (with_rng (S (rng w))) ;;;
  iter ports.

(** [next(self.get_port())].  Every caller drives the generator that
    [get_port] returns exactly one step, up to its [yield]; that step is
    the body below.  A [StopIteration] raised by [next(self.ports)]
    inside the generator leaves it as [StopIteration]. *)
Definition get_port (self : cref) : M Z :=
  c <- deref creds self ;;
  if is_fixed_port c then raise PortIsFixed
  else
    match ports c with
    | None => raise AttributeError
    | Some it =>
        p <- next it ;;
        update_cred self (set_port p) ;;;
        ret p
    end.

(** [Credentials(host, port, username, password)].  The object becomes
    reachable when [__init__] returns, so it is allocated once its
    attributes are known; for a pooled instance the first port is drawn
    as [get_port] draws it from the new iterator. *)
Definition __init__ (host : option string) (port : option Z)
    (username password : option string) : M cref :=
  let host := default hostname host in
  let username := default getuser username in
  let password := default "" password in
  match port with
  | Some p => alloc_cred (mkCredentials host p username password true None)
  | None =>
      it <- get_ports ;;
      p <- next it ;;
      alloc_cred (mkCredentials host p username password false (Some it))
  end.

(** [__copy__].  [__dict__] holds [ports] and nothing else: the slot
    attributes are not copied by the [update]. *)
Definition __copy__ (self : cref) : M cref :=
  new_self <- __init__ None None None None ;;
  s <- deref creds self ;;
  (* new_self.__dict__.update(self.__dict__) *)
  match ports s with
  | Some it => update_cred new_self (set_ports (Some it))
  | None => ret tt
  end ;;;
  n <- deref creds new_self ;;
  (* if hasattr(new_self, 'ports'): new_self.ports = iter(list(self.ports)) *)
  match ports n with
  | Some _ =>
      match ports s with
      | None => raise AttributeError
      | Some it =>
          items <- list_of_iter it ;;
          it' <- iter items ;;
          update_cred new_self (set_ports (Some it'))
      end
  | None => ret tt
  end ;;;
  ret new_self.

Definition __hash__ (c : Credentials) : Z := py_hash (slots c).

Definition __eq__ (self other : Credentials) : bool :=
  (__hash__ self =? __hash__ other)%Z.

Definition __ne__ (self other : Credentials) : bool :=
  negb (__eq__ self other).

End Methods.
End Credentials.

(** Modelled from the spec: [CredsMixin] of [kdbpy.util], which is not
    among the sources.  It gives [Q] and [KQ] the attributes [host],
    [port], [username], [password] and [is_fixed_port] of their
    [credentials] ("if the Credentials are fixed-port", "bound to a given
    Credentials' port"). *)
Module CredsMixin.

Definition port (credentials : cref) : M Z :=
  c <- deref creds credentials ;; ret (port c).

Definition is_fixed_port (credentials : cref) : M bool :=
  c <- deref creds credentials ;; ret (is_fixed_port c).

End CredsMixin.

(** ** psutil *)

Definition find_proc (h : pid) (table : list OsProc) : option OsProc :=
  List.find (fun p => Nat.eqb (os_pid p) h) table.

(** [proc.terminate()]. *)
Definition terminate (h : pid) : M unit :=
  fun w =>
    match find_proc h (ps w) with
    | None => (Raise NoSuchProcess, w)
    | Some p =>
        if os_protected p then (Raise AccessDenied, w)
        else (Ok tt, with_ps (List.filter (fun p => negb (Nat.eqb (os_pid p) h)) (ps w)) w)
    end.

(** [proc.children()]: the direct children. *)
Definition children (h : pid) : M (list pid) :=
  fun w =>
    match find_proc h (ps w) with
    | None => (Raise NoSuchProcess, w)
    | Some _ =>
        (Ok (List.map os_pid (List.filter (fun p => Nat.eqb (os_ppid p) h) (ps w))), w)
    end.

(** [psutil.Popen([path, '-p', str(port)], ...)]: a new q process that
    listens on [port]. *)
Definition Popen (path : string) (port : Z) : M pid :=
  fun w =>
    let h := next_pid w in
    (Ok h,
     with_next_pid (S h)
       (with_ps (ps w ++ [mkOsProc h 0 "q" false false [port] false]) w)).

(** ** The dictionary [Q.processes]

    An entry answers a lookup when it was stored under the hash the
    looked-up key has now, and its key is the same object or compares
    equal. *)
Section Registry.
Context `{Env}.

Definition entry_matches (cs : list Credentials) (k : cref) (c : Credentials)
    (e : ProcEntry) : bool :=
  (pe_hash e =? Credentials.__hash__ c)%Z &&
  (Nat.eqb (pe_key e) k ||
   match cs !! pe_key e with
   | Some c' => Credentials.__eq__ c' c
   | None => false
   end).

(** [processes.get(key)]. *)
Definition processes_get (key : cref) : M (option pid) :=
  c <- deref creds key ;;
  w <- get_world ;;
  ret (pe_proc <$> List.find (entry_matches (creds w) key c) (processes w)).

Fixpoint replace_first (f : ProcEntry -> bool) (v : pid) (l : list ProcEntry)
    : list ProcEntry :=
  match l with
  | [] => []
  | e :: l' =>
      if f e then mkProcEntry (pe_key e) (pe_hash e) v :: l'
      else e :: replace_first f v l'
  end.

Fixpoint remove_first (f : ProcEntry -> bool) (l : list ProcEntry)
    : list ProcEntry :=
  match l with
  | [] => []
  | e :: l' => if f e then l' else e :: remove_first f l'
  end.

(** [processes[key] = value]. *)
Definition processes_set (key : cref) (value : pid) : M unit :=
  c <- deref creds key ;;
  w <- get_world ;;
  let f := entry_matches (creds w) key c in
  match List.find f (processes w) with
  | Some _ => modify (with_processes (replace_first f value (processes w)))
  | None =>
      modify (with_processes
                (processes w ++ [mkProcEntry key (Credentials.__hash__ c) value]))
  end.

(** [del processes[key]]. *)
Definition processes_del (key : cref) : M unit :=
  c <- deref creds key ;;
  w <- get_world ;;
  let f := entry_matches (creds w) key c in
  match List.find f (processes w) with
  | Some _ => modify (with_processes (remove_first f (processes w)))
  | None => raise KeyError
  end.

End Registry.

(** ** Q: the q process *)

Module Q.
Section Methods.
Context `{Env}.

(** [which(exe)]. *)
Definition which (exe : string) : M string :=
  match on_path exe with
  | Some p => ret p
  | None => raise (OSError "Cannot find executable on path")
  end.

(** [get_executable]. *)
Definition get_executable (path : option string) : M string :=
  match path with
  | None =>
      let archd (a : string) : option string :=
        if String.eqb a "darwin" then Some "q"
        else if String.eqb a "linux" then Some "q"
        else if String.eqb a "windows" then Some "q.bat"
        else None in
      match archd arch_name with
      | Some exe => which exe
      | None => raise (OSError "Unsupported operating system")
      end
  | Some p => ret p
  end.

Definition __init__ (credentials : cref) (path : option string) : M Q :=
  p <- get_executable path ;;
  ret (mkQ credentials p).

(** The property [process]. *)
Definition process (self : Q) : M (option pid) :=
  processes_get (q_credentials self).

(** The loop of [find_running_process] over [psutil.process_iter()]. *)
Fixpoint process_iter_scan (port : Z) (table : list OsProc) : option pid :=
  match table with
  | [] => None
  | proc :: rest =>
      if os_name_denied proc then process_iter_scan port rest
      else if String.eqb (os_name proc) "q" || String.eqb (os_name proc) "q.exe" then
        if os_conns_denied proc then process_iter_scan port rest
        else if existsb (fun p => (p =? port)%Z) (os_laddr_ports proc)
             then Some (os_pid proc)
             else process_iter_scan port rest
      else process_iter_scan port rest
  end.

Definition find_running_process (self : Q) : M (option pid) :=
  p <- process self ;;
  match p with
  | Some h => ret (Some h)
  | None =>
      port <- CredsMixin.port (q_credentials self) ;;
      w <- get_world ;;
      ret (process_iter_scan port (ps w))
  end.

(** [self.process or self.find_running_process()]. *)
Definition process_or_running (self : Q) : M (option pid) :=
  p <- process self ;;
  match p with
  | Some h => ret (Some h)
  | None => find_running_process self
  end.

Definition is_started (self : Q) : M bool :=
  p <- process self ;; ret (bool_decide (is_Some p)).

(** The local function [killp] of [stop]. *)
Definition killp (proc : pid) : M unit :=
  try_except (terminate proc)
    (fun e => match e with NoSuchProcess => Some (ret tt) | _ => None end).

Fixpoint kill_all (procs : list pid) : M unit :=
  match procs with
  | [] => ret tt
  | p :: rest => killp p ;;; kill_all rest
  end.

Definition stop (self : Q) : M bool :=
  process <- process_or_running self ;;
  match process with
  | Some h =>
      try_except (cs <- children h ;; kill_all cs)
        (fun e => match e with NoSuchProcess => Some (ret tt) | _ => None end) ;;;
      killp h ;;;
      try_except (processes_del (q_credentials self))
        (fun e => match e with KeyError => Some (ret tt) | _ => None end) ;;;
      ret true
  | None => ret false
  end.

Definition start (self : Q) (start : StartArg) : M unit :=
  returned <-
    match start with
    | StartTrue => p <- process self ;; ret (bool_decide (is_Some p))
    | StartRestart => stop self ;;; ret false
    | StartFalse => ret false
    end ;;
  if (returned : bool) then ret tt
  else
    proc <- process_or_running self ;;
    port <- CredsMixin.port (q_credentials self) ;;
    match proc with
    | Some _ => raise (PortInUse port)
    | None =>
        h <- Popen (q_path self) port ;;
        processes_set (q_credentials self) h ;;;
        modify (fun w => with_atexit (atexit w ++ [self]) w)
    end.

End Methods.
End Q.

(** ** KDB: the qPython connection *)

Module KDB.
Section Methods.
Context `{Env}.

Definition __init__ (credentials : cref) : M kdbref :=
  alloc_kdb (mkKDB credentials None).

Definition set_open (b : bool) (c : QConnection) : QConnection :=
  mkQConnection (conn_host c) (conn_port c) (conn_username c) (conn_password c) b.

(** The [for i in range(ntries)] loop of [start], with [left] rounds to
    go; running out of rounds is the [else] of the [for]. *)
Fixpoint connect (self : kdbref) (conn : QConnection) (ntries left i : nat)
    : M unit :=
  match left with
  | O => raise (ValueError (unable_to_connect ntries))
  | S left' =>
      w <- get_world ;;
      if q_open w conn i
      then update_kdb self (set_kdb_q (Some (set_open true conn)))
      else connect self conn ntries left' (S i)
  end.

Definition start (self : kdbref) (ntries : nat) : M unit :=
  k <- deref kdbs self ;;
  cred <- deref creds (kdb_credentials k) ;;
  let conn :=
    mkQConnection (host cred) (port cred) (username cred) (password cred) false in
  update_kdb self (set_kdb_q (Some conn)) ;;;
  connect self conn ntries ntries 0.

Definition stop (self : kdbref) : M unit :=
  k <- deref kdbs self ;;
  match kdb_q k with
  | Some _ => update_kdb self (set_kdb_q None)
  | None => ret tt
  end.

Definition is_started (self : kdbref) : M bool :=
  k <- deref kdbs self ;; ret (bool_decide (is_Some (kdb_q k))).

(** [QConnection.sync], also reached by calling the connection. *)
Definition sync (conn : QConnection) (expr : string) (args : list PyVal)
    : M PyVal :=
  if conn_open conn then
    w <- get_world ;;
    let rq := mkRequest (conn_port conn) expr args in
    modify (with_wire (wire w ++ [rq])) ;;;
    match q_sync w rq with
    | inl e => raise e
    | inr v => ret v
    end
  else raise (QException "Connection is not established.").

(** The coercion at the end of [eval]. *)
Definition coerce (result : PyVal) : PyVal :=
  match result with
  | QTemporal raw =>
      match raw with
      | NpDatetime64 t => PdTimestamp t
      | NpTimedelta64 t => PdTimedelta t
      | _ => raw
      end
  | _ => result
  end.

(** The first half of [eval]: the callable's result, or the server's
    response.  With no connection, [self.q.sync] is an attribute of
    [None]. *)
Definition raw_result (self : kdbref) (expr : Expr) (args : list PyVal)
    : M PyVal :=
  match expr with
  | ExprCallable f =>
      match f args with
      | inl e => raise e
      | inr v => ret v
      end
  | ExprStr s =>
      k <- deref kdbs self ;;
      match kdb_q k with
      | None => raise AttributeError
      | Some conn => sync conn s args
      end
  end.

Definition eval (self : kdbref) (expr : Expr) (args : list PyVal) : M PyVal :=
  result <- raw_result self expr args ;;
  ret (coerce result).

End Methods.
End KDB.

(** ** KQ: the session *)

Module KQ.
Section Methods.
Context `{Env}.

Definition is_started (self : kqref) : M bool :=
  kq <- deref kqs self ;;
  a <- Q.is_started (kq_q kq) ;;
  if (a : bool) then KDB.is_started (kq_kdb kq) else ret false.

(** One round of the [while(True)] of [start] per unit of fuel.  The
    two [except] clauses belong to one [try] and guard its body, the
    call of [self.q.start], only: an exception raised while the
    [PortInUse] clause runs is not offered to the [StopIteration] clause
    next to it, and leaves [start] as it is.  So the [StopIteration] of
    a used-up pool, raised by [next(self.credentials.get_port())] in the
    handler, is what comes out of [start]. *)
Fixpoint start_loop (fuel : nat) (kq : KQ) (start : StartArg) : M unit :=
  match fuel with
  | O => stuck
  | S fuel' =>
      try_except (Q.start (kq_q kq) start)
        (fun e =>
           match e with
           | PortInUse _ =>
               Some (fixed <- CredsMixin.is_fixed_port (kq_credentials kq) ;;
                     if (fixed : bool) then raise PortIsFixed
                     else
                       Credentials.get_port (kq_credentials kq) ;;;
                       start_loop fuel' kq start)
           | StopIteration =>
               Some (raise (ValueError exhausted_all_designated_ports))
           | _ => None
           end)
  end.

(** The candidate ports the credentials can still draw. *)
Definition pool (credentials : cref) (w : World) : list Z :=
  match creds w !! credentials with
  | Some c =>
      match ports c with
      | Some it => default [] (iters w !! it)
      | None => []
      end
  | None => []
  end.

(** [start]: every round but the last draws a port, so one round more
    than there are ports to draw is all the loop can use. *)
Definition start (self : kqref) (start : StartArg) : M unit :=
  kq <- deref kqs self ;;
  w <- get_world ;;
  start_loop (S (length (pool (kq_credentials kq) w))) kq start ;;;
  KDB.start (kq_kdb kq) 1000.

Definition stop (self : kqref) : M unit :=
  kq <- deref kqs self ;;
  KDB.stop (kq_kdb kq) ;;;
  Q.stop (kq_q kq) ;;;
  ret tt.

(** [eval]; what [pprint] prints for a verbose session is not part of
    the store. *)
Definition eval (self : kqref) (expr : Expr) (args : list PyVal) : M PyVal :=
  kq <- deref kqs self ;;
  KDB.eval (kq_kdb kq) expr args.

Definition set (self : kqref) (key : string) (value : PyVal) : M unit :=
  kq <- deref kqs self ;;
  k <- deref kdbs (kq_kdb kq) ;;
  match kdb_q k with
  | None => raise TypeError
  | Some conn => KDB.sync conn "set" [PyStr key; value] ;;; ret tt
  end.

Definition get (self : kqref) (key : string) : M PyVal :=
  kq <- deref kqs self ;;
  KDB.eval (kq_kdb kq) (ExprStr key) [].

Definition read_kdb (self : kqref) (filename : string) : M PyVal :=
  let filename := normpath (abspath filename) in
  kq <- deref kqs self ;;
  if bool_decide (filename ∈ _loaded kq) then ret PyNone
  else
    result <- eval self (ExprStr ("\l " +:+ filename)) [] ;;
    kq <- deref kqs self ;;
    update_kq self (set_loaded (_loaded kq ∪ {[filename]})) ;;;
    ret result.

Definition load_libs (self : kqref) : M unit :=
  let path := path_join libpath "lib.q" in
  if path_exists path then read_kdb self (normpath path) ;;; ret tt
  else raise (OSError "Non-existent file").

Definition __init__ (credentials : option cref) (start_arg : StartArg)
    (path : option string) (verbose : bool) : M kqref :=
  credentials <-
    match credentials with
    | None => Credentials.__init__ None None None None
    | Some c => ret c
    end ;;
  q <- Q.__init__ credentials path ;;
  kdb <- KDB.__init__ credentials ;;
  self <- alloc_kq (mkKQ verbose credentials q kdb ∅) ;;
  match start_arg with
  | StartFalse => ret tt
  | _ => start self start_arg ;;; load_libs self
  end ;;;
  ret self.

Definition __enter__ (self : kqref) : M unit :=
  started <- is_started self ;;
  if (started : bool) then ret tt else start self StartTrue.

Definition __exit__ (self : kqref) : M bool :=
  stop self ;;; ret true.

End Methods.
End KQ.

(** ** A reference environment

    CPython 2.7 on a 64-bit machine for [hash]; a shuffle that rotates by
    the state of the generator; a q server that always accepts the
    connection and answers a handful of expressions. *)

Module Ref.

Local Open Scope Z_scope.

(** A C [long]: 64 bits, two's complement. *)
Definition wrap64 (x : Z) : Z := (x + 2 ^ 63) mod 2 ^ 64 - 2 ^ 63.

(** [-1] signals an error to the interpreter and is never a hash. *)
Definition not_minus_one (x : Z) : Z := if x =? -1 then -2 else x.

Definition int_hash (n : Z) : Z := not_minus_one (wrap64 n).

Definition bool_hash (b : bool) : Z := if b then 1 else 0.

Definition ord (c : Ascii.ascii) : Z := Z.of_N (Ascii.N_of_ascii c).

Fixpoint string_hash_loop (x : Z) (s : string) : Z :=
  match s with
  | EmptyString => x
  | String c s' => string_hash_loop (wrap64 (Z.lxor (wrap64 (1000003 * x)) (ord c))) s'
  end.

Definition string_hash (s : string) : Z :=
  match s with
  | EmptyString => 0
  | String c _ =>
      let x := string_hash_loop (Z.shiftl (ord c) 7) s in
      not_minus_one (Z.lxor x (Z.of_nat (String.length s)))
  end.

(** [tuplehash]: [len] counts the items still to come. *)
Fixpoint tuple_hash_loop (x mult : Z) (len : nat) (items : list Z) : Z :=
  match items, len with
  | y :: rest, S len' =>
      tuple_hash_loop (wrap64 (Z.lxor x y * mult))
        (wrap64 (mult + (82520 + Z.of_nat len' + Z.of_nat len'))) len' rest
  | _, _ => x
  end.

Definition tuple_hash (items : list Z) : Z :=
  not_minus_one
    (wrap64 (tuple_hash_loop 3430008 1000003 (length items) items + 97531)).

Definition cpython_hash (t : SlotTuple) : Z :=
  let '(host, port, username, password, is_fixed_port) := t in
  tuple_hash [string_hash host; int_hash port; string_hash username;
              string_hash password; bool_hash is_fixed_port].

Definition shuffle (state : nat) (l : list Z) : list Z := rotate state l.

Definition startswith (p s : string) : bool :=
  String.eqb (String.substring 0 (String.length p) s) p.

(** Relative names are taken from the directory [/home/kdb]. *)
Definition abspath (p : string) : string :=
  if startswith "/" p then p else "/home/kdb/" +:+ p.

(** The server: [.z.p] and [.z.n] answer temporal scalars, ['oops] signals
    an error, a load directive answers nothing, anything else its own
    text. *)
Definition server (w : World) (rq : Request) : Exc + PyVal :=
  if String.eqb (rq_expr rq) ".z.p" then inr (QTemporal (NpDatetime64 0))
  else if String.eqb (rq_expr rq) ".z.n" then inr (QTemporal (NpTimedelta64 (-5)))
  else if String.eqb (rq_expr rq) "'oops" then inl (QException "oops")
  else if startswith "\l " (rq_expr rq) then inr PyNone
  else inr (PyStr (rq_expr rq)).

End Ref.

Lemma ref_shuffle_perm (s : nat) (l : list Z) : Permutation (Ref.shuffle s l) l.
Proof.
  unfold Ref.shuffle, rotate.
  rewrite Permutation_app_comm. by rewrite take_drop.
Qed.

Definition ref_env : Env := {|
  py_hash := Ref.cpython_hash;
  hostname := "localhost";
  getuser := "kdb";
  random_shuffle := Ref.shuffle;
  random_shuffle_perm := ref_shuffle_perm;
  normpath := fun p => p;
  abspath := Ref.abspath;
  path_join := fun a b => a +:+ "/" +:+ b;
  path_exists := fun _ => true;
  libpath := "/opt/kdbpy/q";
  arch_name := "linux";
  on_path := fun exe => Some ("/usr/bin/" +:+ exe);
  q_open := fun _ _ _ => true;
  q_sync := Ref.server
|}.

(** The reference environment with a [hash] that never collides on slot
    tuples. *)
Definition collision_free_env : Env := {|
  py_hash := fun t => Z.pos (encode t);
  hostname := "localhost";
  getuser := "kdb";
  random_shuffle := Ref.shuffle;
  random_shuffle_perm := ref_shuffle_perm;
  normpath := fun p => p;
  abspath := Ref.abspath;
  path_join := fun a b => a +:+ "/" +:+ b;
  path_exists := fun _ => true;
  libpath := "/opt/kdbpy/q";
  arch_name := "linux";
  on_path := fun exe => Some ("/usr/bin/" +:+ exe);
  q_open := fun _ _ _ => true;
  q_sync := Ref.server
|}.

(** ** Scenarios in the reference environment *)

Module Scenario.

#[local] Existing Instance ref_env.

(** [Credentials(port=47823)]. *)
Definition fixed_credentials : World :=
  snd (Credentials.__init__ None (Some 47823%Z) None None empty_world).

(** [Credentials(host='db1', username='alice', password='s3cret')]. *)
Definition pooled_credentials : World :=
  snd (Credentials.__init__ (Some "db1") None (Some "alice") (Some "s3cret")
         empty_world).

(** [Credentials(port=47823)], then [Credentials()], which draws 47823
    as its first port. *)
Definition fixed_and_pooled : World :=
  snd (Credentials.__init__ None None None None fixed_credentials).

(** The session object of the scenarios, before anything was loaded. *)
Definition the_session : KQ := mkKQ false 0 (mkQ 0 "/usr/bin/q") 0 ∅.

(** [KQ()]: a session that was not started. *)
Definition unstarted : World :=
  snd (KQ.__init__ None StartFalse None false empty_world).

(** The session after [start(True)]. *)
Definition running : World := snd (KQ.start 0 StartTrue unstarted).

(** The running session after [read_kdb('t.q')]. *)
Definition loaded : World := snd (KQ.read_kdb 0 "t.q" running).

(** A q process of somebody else that listens on the port. *)
Definition squatter : OsProc := mkOsProc 77 50 "q" false false [47823%Z] false.

(** The session that was not started, with the squatter on its port. *)
Definition squatted : World := with_ps [squatter] unstarted.


(** [KQ(Credentials(port=47823))] with the squatter on the port. *)
Definition squatted_fixed : World :=
  with_ps [squatter]
    (snd (KQ.__init__ (Some 0%nat) StartFalse None false fixed_credentials)).

(** The running session whose q process has exited without a [stop]. *)
Definition crashed : World := with_ps [] running.

End Scenario.

(** ** Successive allocations and session states *)

(** [n] successive calls of [next(self.get_port())], with the ports they
    return. *)
Fixpoint draw `{Env} (self : cref) (n : nat) : M (list Z) :=
  match n with
  | O => ret []
  | S n' =>
      p <- Credentials.get_port self ;;
      rest <- draw self n' ;;
      ret (p :: rest)
  end.

(** [self] is a pooled instance and [items] are the candidate ports it
    has not drawn yet. *)
Definition pooled (w : World) (self : cref) (items : list Z) : Prop :=
  exists c it,
    creds w !! self = Some c /\ is_fixed_port c = false /\
    ports c = Some it /\ iters w !! it = Some items.

Definition in_port_range (p : Z) : Prop :=
  (fst DEFAULT_PORT_RANGE <= p < snd DEFAULT_PORT_RANGE)%Z.

(** The session has no connection: it was not started, or it was
    stopped. *)
Definition not_started (w : World) (self : kqref) : Prop :=
  exists kq k,
    kqs w !! self = Some kq /\ kdbs w !! kq_kdb kq = Some k /\ kdb_q k = None.

(** The session's [Q] and [KDB] hold the [Credentials] object the session
    holds. *)
Definition shares_credentials (w : World) (self : kqref) : Prop :=
  exists kq k,
    kqs w !! self = Some kq /\ kdbs w !! kq_kdb kq = Some k /\
    q_credentials (kq_q kq) = kq_credentials kq /\
    kdb_credentials k = kq_credentials kq.

(** The load directive [read_kdb] sends for a file. *)
Definition load_directive `{Env} (filename : string) : string :=
  "\l " +:+ normpath (abspath filename).

(** No process of the table refuses to be terminated. *)
Definition unprotected (w : World) : Prop :=
  Forall (fun p => os_protected p = false) (ps w).

(** [m] never changes the part [f] of the store, whatever its outcome. *)
Definition keeps {A B} (f : World -> B) (m : M A) : Prop :=
  forall w, f (snd (m w)) = f w.

(** The objects and the wire, which the process side never touches. *)
Definition objects (w : World) :=
  (creds w, iters w, kdbs w, kqs w, rng w, wire w).

(** [m] comes back from [w]: it returns or it raises. *)
Definition returns_or_raises {A} (m : M A) (w : World) : Prop :=
  fst (m w) <> Stuck.

(** The credentials can be asked for a port: a pooled instance has its
    iterator. *)
Definition drawable (w : World) (self : cref) : Prop :=
  exists c, creds w !! self = Some c /\
    (is_fixed_port c = false -> forall it, ports c = Some it ->
       is_Some (iters w !! it)).

(** ** The rest of the module *)

(** [which(exe)]: the search itself, where [Q.which] takes its result
    from the environment.  [environ_path] is [os.environ['PATH']]; a
    name on it that is no directory is passed over; the first entry of
    a directory whose base name is [exe] is joined to the directory.
    Finding nothing is an [OSError] that names [exe] and the path. *)
Section Which.
Variable isdir : string -> bool.
Variable listdir : string -> list string.
Variable basename : string -> string.
Variable join : string -> string -> string.

Fixpoint which_in_listing (exe p : string) (names : list string) : option string :=
  match names with
  | [] => None
  | f :: rest =>
      if String.eqb f exe then Some (join p f) else which_in_listing exe p rest
  end.

Fixpoint which_on_path (exe : string) (path : list string) : option string :=
  match path with
  | [] => None
  | p :: rest =>
      if isdir p then
        match which_in_listing exe p (List.map basename (listdir p)) with
        | Some found => Some found
        | None => which_on_path exe rest
        end
      else which_on_path exe rest
  end.

(** [path.split(os.pathsep)] and [%r] of a string are taken as given. *)
Variable split_pathsep : string -> list string.
Variable repr : string -> string.

Definition which (environ_path : string) (exe : string) : Exc + string :=
  match which_on_path exe (split_pathsep environ_path) with
  | Some found => inr found
  | None =>
      inl (OSError ("Cannot find " +:+ repr exe +:+ " on path " +:+ environ_path))
  end.

(** [exe] is the base name of an entry of the directory [p]. *)
Definition lists (exe p : string) : Prop :=
  isdir p = true /\ In exe (List.map basename (listdir p)).

End Which.

(** What [find_running_process] asks of a process of the table: its name
    can be read and is [q] or [q.exe], its connections can be read, and
    one of them has the port as its local port. *)
Definition listens_as_q (port : Z) (proc : OsProc) : Prop :=
  os_name_denied proc = false /\
  (os_name proc = "q" \/ os_name proc = "q.exe") /\
  os_conns_denied proc = false /\
  In port (os_laddr_ports proc).

(** The process [psutil.Popen] adds to the table. *)
Definition spawned (h : pid) (port : Z) : OsProc :=
  mkOsProc h 0 "q" false false [port] false.

(** The store after [Q.start] has spawned: the process in the table, its
    entry in the registry, [stop] registered with [atexit]. *)
Definition after_spawn `{Env} (q : Q) (c : Credentials) (w : World) : World :=
  with_atexit (atexit w ++ [q])
    (with_processes
       (processes w ++
        [mkProcEntry (q_credentials q) (Credentials.__hash__ c) (next_pid w)])
       (with_next_pid (S (next_pid w))
          (with_ps (ps w ++ [spawned (next_pid w) (port c)]) w))).

(** [conftest.py]: [gensym] names the next number of the counter
    [syms = itertools.count()]. *)
Module Conftest.

Definition gensym (syms : nat) : string * nat :=
  ("sym" +:+ pretty syms, S syms).

(** The names of [n] calls in a row. *)
Fixpoint gensyms (n : nat) (syms : nat) : list string :=
  match n with
  | O => []
  | S n' => let '(name, syms') := gensym syms in name :: gensyms n' syms'
  end.

End Conftest.

(** Environments that differ from the reference in how the server
    behaves. *)
Definition with_server (open : World -> QConnection -> nat -> bool)
    (sync : World -> Request -> Exc + PyVal) (E : Env) : Env := {|
  py_hash := @py_hash E;
  hostname := @hostname E;
  getuser := @getuser E;
  random_shuffle := @random_shuffle E;
  random_shuffle_perm := @random_shuffle_perm E;
  normpath := @normpath E;
  abspath := @abspath E;
  path_join := @path_join E;
  path_exists := @path_exists E;
  libpath := @libpath E;
  arch_name := @arch_name E;
  on_path := @on_path E;
  q_open := open;
  q_sync := sync
|}.

(** No [open()] ever completes. *)
Definition unreachable_env : Env :=
  with_server (fun _ _ _ => false) Ref.server ref_env.

(** The third [open()] completes. *)
Definition slow_env : Env :=
  with_server (fun _ _ i => (2 <=? i)%nat) Ref.server ref_env.

(** The server signals an error on every request. *)
Definition refusing_env : Env :=
  with_server (fun _ _ _ => true) (fun _ _ => inl (QException "nyi")) ref_env.

(** * Properties *)

(** ** The monad *)

Lemma bind_Ok {A B} (m : M A) (k : A -> M B) w a w' :
  m w = (Ok a, w') -> bind m k w = k a w'.
Proof. intros E. unfold bind. by rewrite E. Qed.

Lemma bind_Raise {A B} (m : M A) (k : A -> M B) w e w' :
  m w = (Raise e, w') -> bind m k w = (Raise e, w').
Proof. intros E. unfold bind. by rewrite E. Qed.

Lemma bind_Stuck {A B} (m : M A) (k : A -> M B) w w' :
  m w = (Stuck, w') -> bind m k w = (Stuck, w').
Proof. intros E. unfold bind. by rewrite E. Qed.

(** A [bind] that returned went through a returning first half. *)
Lemma bind_Ok_inv {A B} (m : M A) (k : A -> M B) w b w' :
  bind m k w = (Ok b, w') ->
  exists a w1, m w = (Ok a, w1) /\ k a w1 = (Ok b, w').
Proof.
  unfold bind. destruct (m w) as [[a| |] w1]; try discriminate. eauto.
Qed.

Lemma deref_Some {A} (table : World -> list A) r w x :
  table w !! r = Some x -> deref table r w = (Ok x, w).
Proof. intros E. unfold deref. by rewrite E. Qed.

Lemma try_except_Ok {A} (m : M A) h w a w' :
  m w = (Ok a, w') -> try_except m h w = (Ok a, w').
Proof. intros E. unfold try_except. by rewrite E. Qed.

Lemma try_except_Raise {A} (m : M A) h w e w' :
  m w = (Raise e, w') ->
  try_except m h w = match h e with Some k => k w' | None => (Raise e, w') end.
Proof. intros E. unfold try_except. by rewrite E. Qed.

(** Projections of updated stores. *)
Ltac wsimpl :=
  cbn [creds iters kdbs kqs processes ps next_pid atexit rng wire
       with_creds with_iters with_kdbs with_kqs with_processes with_ps
       with_next_pid with_atexit with_rng with_wire fst snd] in *.

(** Lookups in tables that grew at the end or were updated in place. *)
Ltac table_length :=
  rewrite ?length_insert, ?length_app; cbn [length]; lia.

Ltac lsimpl :=
  repeat first
    [ progress wsimpl
    | rewrite lookup_app_l by table_length
    | rewrite lookup_app_r by table_length
    | rewrite list_lookup_insert_eq by table_length
    | rewrite list_lookup_insert_ne by lia
    | rewrite insert_app_r_alt by table_length
    | rewrite insert_app_l by table_length
    | rewrite Nat.sub_diag
    | progress cbn [lookup list_lookup insert list_insert] ].

Ltac solve_lookup := lsimpl; first [eassumption | reflexivity].

Lemma update_cred_Ok w r c f :
  creds w !! r = Some c ->
  update_cred r f w = (Ok tt, with_creds (<[r := f c]> (creds w)) w).
Proof. intros E. unfold update_cred, bind, deref, modify. by rewrite E. Qed.

Lemma update_kdb_Ok w r k f :
  kdbs w !! r = Some k ->
  update_kdb r f w = (Ok tt, with_kdbs (<[r := f k]> (kdbs w)) w).
Proof. intros E. unfold update_kdb, bind, deref, modify. by rewrite E. Qed.

Lemma update_kq_Ok w r k f :
  kqs w !! r = Some k ->
  update_kq r f w = (Ok tt, with_kqs (<[r := f k]> (kqs w)) w).
Proof. intros E. unfold update_kq, bind, deref, modify. by rewrite E. Qed.

Lemma next_Ok w it x rest :
  iters w !! it = Some (x :: rest) ->
  next it w = (Ok x, with_iters (<[it := rest]> (iters w)) w).
Proof. intros E. unfold next. by rewrite E. Qed.

Lemma next_StopIteration w it :
  iters w !! it = Some [] -> next it w = (Raise StopIteration, w).
Proof. intros E. unfold next. by rewrite E. Qed.

Lemma list_of_iter_Ok w it items :
  iters w !! it = Some items ->
  list_of_iter it w = (Ok items, with_iters (<[it := []]> (iters w)) w).
Proof. intros E. unfold list_of_iter. by rewrite E. Qed.

(** Running the first half of a [bind] that returns: [tac] shows what it
    returns. *)
Ltac mbind tac := etransitivity; [apply bind_Ok; tac | cbv beta].
Ltac mderef := mbind ltac:(apply deref_Some; solve_lookup).

(** ** Credentials: allocation *)

Section CredentialsFacts.
Context `{Env}.

Lemma get_port_fixed w self c :
  creds w !! self = Some c -> is_fixed_port c = true ->
  Credentials.get_port self w = (Raise PortIsFixed, w).
Proof.
  intros Hc Hf. unfold Credentials.get_port.
  rewrite (bind_Ok _ _ _ _ _ (deref_Some creds _ _ _ Hc)). by rewrite Hf.
Qed.

(** Drawing from a pool that has a port left: the port is returned, it
    becomes the [port] attribute, and the pool is one shorter. *)
Lemma get_port_pooled w self p items :
  pooled w self (p :: items) ->
  exists w',
    Credentials.get_port self w = (Ok p, w') /\
    pooled w' self items /\
    port <$> creds w' !! self = Some p /\
    kdbs w' = kdbs w /\ kqs w' = kqs w /\ processes w' = processes w /\
    ps w' = ps w /\ wire w' = wire w /\ length (creds w') = length (creds w).
Proof.
  intros (c & it & Hc & Hf & Hp & Hi).
  unfold Credentials.get_port.
  rewrite (bind_Ok _ _ _ _ _ (deref_Some creds _ _ _ Hc)), Hf, Hp.
  unfold bind, next, update_cred, bind, deref, modify, ret. rewrite Hi. simpl.
  rewrite Hc. simpl. eexists; split; [reflexivity|].
  assert (self < length (creds w))%nat by (eapply lookup_lt_Some; eauto).
  assert (it < length (iters w))%nat by (eapply lookup_lt_Some; eauto).
  split; [|split].
  - exists (set_port p c), it. simpl.
    rewrite !list_lookup_insert_eq by done. done.
  - simpl. by rewrite list_lookup_insert_eq.
  - simpl. by rewrite length_insert.
Qed.

(** Drawing from an empty pool: [StopIteration], and nothing changes. *)
Lemma get_port_exhausted w self :
  pooled w self [] ->
  Credentials.get_port self w = (Raise StopIteration, w).
Proof.
  intros (c & it & Hc & Hf & Hp & Hi).
  unfold Credentials.get_port.
  rewrite (bind_Ok _ _ _ _ _ (deref_Some creds _ _ _ Hc)), Hf, Hp.
  unfold bind, next. by rewrite Hi.
Qed.

(** Successive draws return a prefix of the pool, in order. *)
Lemma draw_prefix n : forall w self items drawn w',
  pooled w self items ->
  draw self n w = (Ok drawn, w') ->
  exists rest, items = drawn ++ rest /\ pooled w' self rest.
Proof.
  induction n as [|n IH]; intros w self items drawn w' Hpool Hd; simpl in Hd.
  - inversion Hd; subst. by exists items.
  - apply bind_Ok_inv in Hd as (p & w1 & Hg & Hd).
    apply bind_Ok_inv in Hd as (rest & w2 & Hd & Hr).
    inversion Hr; subst; clear Hr.
    destruct items as [|q items].
    + rewrite (get_port_exhausted _ _ Hpool) in Hg. discriminate.
    + destruct (get_port_pooled _ _ _ _ Hpool) as (w1' & Hg' & Hpool' & _).
      rewrite Hg' in Hg. inversion Hg; subst.
      destruct (IH _ _ _ _ _ Hpool' Hd) as (rest' & -> & Hp').
      by exists rest'.
Qed.

(** The shuffled candidates: a rearrangement of the range, so distinct
    ports of the range, and one hundred of them. *)
Lemma shuffled_range s :
  let l := random_shuffle s (range (fst DEFAULT_PORT_RANGE) (snd DEFAULT_PORT_RANGE)) in
  NoDup l /\ Forall in_port_range l /\ length l = 100%nat.
Proof.
  intros l. pose proof (random_shuffle_perm s
    (range (fst DEFAULT_PORT_RANGE) (snd DEFAULT_PORT_RANGE))) as HP.
  fold l in HP. split; [|split].
  - rewrite HP. apply NoDup_seqZ.
  - rewrite HP. apply Forall_forall. intros p Hp.
    apply elem_of_seqZ in Hp. unfold in_port_range. simpl in *. lia.
  - rewrite HP. unfold range. by rewrite length_seqZ.
Qed.

(** Constructing a pooled instance always succeeds: the object is new,
    carries the given or default fields and the first shuffled port, and
    its pool is the rest of the shuffle. *)
Lemma init_pooled w0 h u pw :
  exists p items,
    random_shuffle (rng w0) (range (fst DEFAULT_PORT_RANGE) (snd DEFAULT_PORT_RANGE))
      = p :: items /\
    let self := length (creds w0) in
    let it := length (iters w0) in
    Credentials.__init__ h None u pw w0 =
      (Ok self,
       with_creds (creds w0 ++ [mkCredentials (default hostname h) p
                                  (default getuser u) (default "" pw) false (Some it)])
         (with_iters (iters w0 ++ [items]) (with_rng (S (rng w0)) w0))).
Proof.
  destruct (shuffled_range (rng w0)) as (_ & _ & Hlen).
  destruct (random_shuffle _ _) as [|p items] eqn:E; [done|].
  exists p, items. split; [done|]. intros self it.
  unfold Credentials.__init__, Credentials.get_ports.
  unfold bind, get_world, modify, iter, next, alloc_cred.
  cbv beta iota. wsimpl. rewrite E.
  rewrite lookup_app_r by done. rewrite Nat.sub_diag. cbn [lookup list_lookup].
  wsimpl. rewrite insert_app_r_alt by done. rewrite Nat.sub_diag. done.
Qed.

Lemma init_fixed w0 h p u pw :
  Credentials.__init__ h (Some p) u pw w0 =
    (Ok (length (creds w0)),
     with_creds (creds w0 ++ [mkCredentials (default hostname h) p
                                (default getuser u) (default "" pw) true None]) w0).
Proof. reflexivity. Qed.

(** [__copy__] of a pooled instance.  The copy is a new default instance:
    its slot attributes are those [Credentials()] gives it, with the
    first port of a fresh shuffle.  Its pool is what the original had
    left, and the original has nothing left. *)
Lemma copy_pooled w self items :
  pooled w self items ->
  exists p' items' w',
    random_shuffle (rng w) (range (fst DEFAULT_PORT_RANGE) (snd DEFAULT_PORT_RANGE))
      = p' :: items' /\
    Credentials.__copy__ self w = (Ok (length (creds w)), w') /\
    creds w' = creds w ++
      [mkCredentials hostname p' getuser "" false (Some (S (length (iters w))))] /\
    pooled w' (length (creds w)) items /\
    pooled w' self [].
Proof.
  intros (c & it & Hc & Hf & Hp & Hi).
  destruct (init_pooled w None None None) as (p' & items' & E & Hinit).
  cbv zeta in Hinit. exists p', items'. eexists. split; [done|].
  assert (self < length (creds w))%nat as Hself by (eapply lookup_lt_Some; eauto).
  assert (it < length (iters w))%nat as Hit by (eapply lookup_lt_Some; eauto).
  split.
  { unfold Credentials.__copy__.
    mbind ltac:(exact Hinit). mderef. rewrite Hp.
    mbind ltac:(apply update_cred_Ok; solve_lookup). mderef.
    cbn [ports set_ports].
    mbind ltac:(mbind ltac:(apply list_of_iter_Ok; solve_lookup);
                mbind ltac:(reflexivity);
                apply update_cred_Ok; solve_lookup).
    reflexivity. }
  split.
  { lsimpl. unfold set_ports. cbn [host port username password is_fixed_port default].
    rewrite length_app, length_insert. cbn [length].
    repeat f_equal. lia. }
  split.
  - eexists _, _. lsimpl. cbn [set_ports ports is_fixed_port]. repeat split.
    by lsimpl.
  - exists c, it. lsimpl. rewrite Hc. repeat split; try done.
Qed.

(** C7.  For a fixed-port instance, [next(get_port())] raises
    [PortIsFixed] whatever the number [n] of earlier calls, and the calls
    leave the store, hence the [port] attribute, as it was. *)
Theorem C7_fixed_port_never_reallocated (w : World) (self : cref)
    (c : Credentials) (n : nat) :
  creds w !! self = Some c ->
  is_fixed_port c = true ->
  let w' := Nat.iter n (fun w => snd (Credentials.get_port self w)) w in
  Credentials.get_port self w' = (Raise PortIsFixed, w') /\
  w' = w /\
  port <$> creds w' !! self = Some (port c).
Proof.
  intros Hc Hf w'.
  assert (w' = w) as ->.
  { subst w'. induction n as [|n IH]; [done|].
    rewrite Nat.iter_succ, IH. by rewrite (get_port_fixed _ _ _ Hc Hf). }
  split; [by apply (get_port_fixed _ _ c)|]. split; [done|]. by rewrite Hc.
Qed.


(** The allocations of a copy: a copy of an instance whose pool holds
    distinct ports of the range draws distinct ports of the range. *)
Lemma copy_draws_in_range_and_distinct w self items new_self w1 n drawn w2 :
  pooled w self items -> NoDup items -> Forall in_port_range items ->
  Credentials.__copy__ self w = (Ok new_self, w1) ->
  draw new_self n w1 = (Ok drawn, w2) ->
  Forall in_port_range drawn /\ NoDup drawn.
Proof.
  intros Hpool Hnd Hrange Hcopy Hdraw.
  destruct (copy_pooled _ _ _ Hpool) as (p' & items' & w' & _ & Hc & _ & Hnew & _).
  rewrite Hc in Hcopy. inversion Hcopy; subst.
  destruct (draw_prefix _ _ _ _ _ _ Hnew Hdraw) as (rest & -> & _).
  split.
  - by apply Forall_app in Hrange as [? _].
  - by apply NoDup_app in Hnd as (? & _).
Qed.

(** C3 (as the code has it).  [__eq__] compares the hashes of the two
    slot tuples, which hold [is_fixed_port] besides [host], [port],
    [username] and [password]: instances are equal exactly when these
    hashes agree; instances that agree on all five slots are equal
    whatever their pools; and where [hash] has no collision on slot
    tuples, instances are equal exactly when all five slots agree. *)
Theorem C3_eq_compares_slot_hashes (a b : Credentials) :
  (Credentials.__eq__ a b = true <-> py_hash (slots a) = py_hash (slots b)) /\
  (Credentials.__ne__ a b = negb (Credentials.__eq__ a b)) /\
  (slots a = slots b -> Credentials.__eq__ a b = true) /\
  ((forall s t : SlotTuple, py_hash s = py_hash t -> s = t) ->
   (Credentials.__eq__ a b = true <->
    host a = host b /\ port a = port b /\ username a = username b /\
    password a = password b /\ is_fixed_port a = is_fixed_port b)).
Proof.
  unfold Credentials.__eq__, Credentials.__ne__, Credentials.__hash__.
  split; [apply Z.eqb_eq|]. split; [done|]. split.
  - intros ->. apply Z.eqb_refl.
  - intros Hinj. rewrite Z.eqb_eq. unfold slots. split.
    + intros E. apply Hinj in E. by injection E.
    + intros (-> & -> & -> & -> & ->). done.
Qed.

End CredentialsFacts.

(** ** Frames: what a computation leaves alone *)

Section Keeps.
Context {B : Type} (f : World -> B).

Lemma keeps_ret {A} (a : A) : keeps f (ret a).
Proof. done. Qed.

Lemma keeps_raise {A} e : keeps f (raise (A:=A) e).
Proof. done. Qed.

Lemma keeps_stuck {A} : keeps f (stuck (A:=A)).
Proof. done. Qed.

Lemma keeps_get_world : keeps f get_world.
Proof. done. Qed.

Lemma keeps_deref {A} (table : World -> list A) r : keeps f (deref table r).
Proof. intros w. unfold deref. by destruct (table w !! r). Qed.

Lemma keeps_modify g : (forall w, f (g w) = f w) -> keeps f (modify g).
Proof. intros Hg w. apply Hg. Qed.

Lemma keeps_bind {A C} (m : M A) (k : A -> M C) :
  keeps f m -> (forall a, keeps f (k a)) -> keeps f (bind m k).
Proof.
  intros Hm Hk w. unfold bind. specialize (Hm w).
  destruct (m w) as [[a| |] w1]; simpl in *; [|done..].
  by rewrite Hk.
Qed.

Lemma keeps_try_except {A} (m : M A) handler :
  keeps f m ->
  (forall e h, handler e = Some h -> keeps f h) ->
  keeps f (try_except m handler).
Proof.
  intros Hm Hh w. unfold try_except. specialize (Hm w).
  destruct (m w) as [[a|e|] w1]; simpl in *; [done| |done].
  destruct (handler e) as [h|] eqn:E; [|done].
  by rewrite (Hh _ _ E).
Qed.

Lemma keeps_terminate h :
  (forall x w, f (with_ps x w) = f w) -> keeps f (terminate h).
Proof.
  intros Hf w. unfold terminate.
  destruct (find_proc h (ps w)) as [p|]; [|done].
  destruct (os_protected p); [done|]. apply Hf.
Qed.

Lemma keeps_children h : keeps f (children h).
Proof. intros w. unfold children. by destruct (find_proc h (ps w)). Qed.

Lemma keeps_Popen path port :
  (forall x w, f (with_ps x w) = f w) ->
  (forall x w, f (with_next_pid x w) = f w) ->
  keeps f (Popen path port).
Proof. intros H1 H2 w. unfold Popen. simpl. by rewrite H2, H1. Qed.

Lemma keeps_iter items :
  (forall x w, f (with_iters x w) = f w) -> keeps f (iter items).
Proof. intros Hf w. apply Hf. Qed.

Lemma keeps_next it :
  (forall x w, f (with_iters x w) = f w) -> keeps f (next it).
Proof.
  intros Hf w. unfold next. destruct (iters w !! it) as [[|x rest]|]; [done| |done].
  apply Hf.
Qed.

End Keeps.

(** The frame of a method body, by its structure. *)
Ltac keeps_handler :=
  let e := fresh "e" in
  let h := fresh "h" in
  let E := fresh "E" in
  intros e h E; destruct e; inversion E; subst; clear E.

Ltac keeps_tac :=
  repeat first
    [ assumption
    | apply keeps_ret | apply keeps_raise | apply keeps_stuck
    | apply keeps_get_world | apply keeps_deref
    | apply keeps_modify; intros; reflexivity
    | apply keeps_terminate; intros; reflexivity
    | apply keeps_children
    | apply keeps_Popen; intros; reflexivity
    | apply keeps_iter; intros; reflexivity
    | apply keeps_next; intros; reflexivity
    | apply keeps_bind; [|intros ?]
    | apply keeps_try_except; [|keeps_handler]
    | match goal with
      | |- keeps _ (match ?x with _ => _ end) => destruct x
      | |- keeps _ (if ?x then _ else _) => destruct x
      end ].

Section SessionFrames.
Context `{Env}.

Lemma keeps_processes_get {B} (f : World -> B) key : keeps f (processes_get key).
Proof. unfold processes_get. keeps_tac. Qed.

Lemma keeps_processes_set {B} (f : World -> B) key v :
  (forall x w, f (with_processes x w) = f w) -> keeps f (processes_set key v).
Proof.
  intros Hf. unfold processes_set.
  apply keeps_bind; [keeps_tac|intros c].
  apply keeps_bind; [keeps_tac|intros w].
  destruct (List.find _ _); apply keeps_modify; intros; apply Hf.
Qed.

Lemma keeps_processes_del {B} (f : World -> B) key :
  (forall x w, f (with_processes x w) = f w) -> keeps f (processes_del key).
Proof.
  intros Hf. unfold processes_del.
  apply keeps_bind; [keeps_tac|intros c].
  apply keeps_bind; [keeps_tac|intros w].
  destruct (List.find _ _); [apply keeps_modify; intros; apply Hf|keeps_tac].
Qed.

Lemma keeps_process_or_running {B} (f : World -> B) q :
  keeps f (Q.process_or_running q).
Proof.
  unfold Q.process_or_running, Q.find_running_process, Q.process, CredsMixin.port.
  pose proof (keeps_processes_get f (q_credentials q)). keeps_tac.
Qed.

Lemma keeps_killp {B} (f : World -> B) h :
  (forall x w, f (with_ps x w) = f w) -> keeps f (Q.killp h).
Proof. intros Hf. unfold Q.killp. keeps_tac; apply keeps_terminate, Hf. Qed.

Lemma keeps_kill_all {B} (f : World -> B) hs :
  (forall x w, f (with_ps x w) = f w) -> keeps f (Q.kill_all hs).
Proof.
  intros Hf. induction hs as [|h hs IH]; simpl; [keeps_tac|].
  apply keeps_bind; [by apply keeps_killp|done].
Qed.

Lemma keeps_Q_stop {B} (f : World -> B) q :
  (forall x w, f (with_ps x w) = f w) ->
  (forall x w, f (with_processes x w) = f w) ->
  keeps f (Q.stop q).
Proof.
  intros H1 H2. unfold Q.stop.
  pose proof (keeps_process_or_running f q).
  apply keeps_bind; [done|intros [h|]]; [|keeps_tac].
  pose proof (keeps_killp f h H1).
  pose proof (keeps_processes_del f (q_credentials q) H2).
  apply keeps_bind; [|intros _; keeps_tac].
  apply keeps_try_except; [|keeps_handler; keeps_tac].
  apply keeps_bind; [keeps_tac|intros cs]. by apply keeps_kill_all.
Qed.

Lemma keeps_Q_start {B} (f : World -> B) q mode :
  (forall x w, f (with_ps x w) = f w) ->
  (forall x w, f (with_processes x w) = f w) ->
  (forall x w, f (with_next_pid x w) = f w) ->
  (forall x w, f (with_atexit x w) = f w) ->
  keeps f (Q.start q mode).
Proof.
  intros H1 H2 H3 H4. unfold Q.start, Q.process, CredsMixin.port.
  pose proof (keeps_process_or_running f q).
  pose proof (keeps_Q_stop f q H1 H2).
  pose proof (keeps_processes_get f (q_credentials q)).
  apply keeps_bind; [destruct mode; keeps_tac|intros [|]]; [keeps_tac|].
  apply keeps_bind; [done|intros proc].
  apply keeps_bind; [keeps_tac|intros port].
  destruct proc; [keeps_tac|].
  apply keeps_bind; [by apply keeps_Popen|intros h].
  apply keeps_bind; [by apply keeps_processes_set|intros _].
  apply keeps_modify. intros w. apply H4.
Qed.

Lemma keeps_update_cred {B} (f : World -> B) r g :
  (forall x w, f (with_creds x w) = f w) -> keeps f (update_cred r g).
Proof.
  intros Hf. unfold update_cred. apply keeps_bind; [keeps_tac|intros c].
  apply keeps_modify. intros w. apply Hf.
Qed.

Lemma keeps_update_kdb {B} (f : World -> B) r g :
  (forall x w, f (with_kdbs x w) = f w) -> keeps f (update_kdb r g).
Proof.
  intros Hf. unfold update_kdb. apply keeps_bind; [keeps_tac|intros c].
  apply keeps_modify. intros w. apply Hf.
Qed.

Lemma keeps_get_port {B} (f : World -> B) self :
  (forall x w, f (with_creds x w) = f w) ->
  (forall x w, f (with_iters x w) = f w) ->
  keeps f (Credentials.get_port self).
Proof.
  intros H1 H2. unfold Credentials.get_port.
  pose proof (fun p => keeps_update_cred f self (set_port p) H1).
  apply keeps_bind; [keeps_tac|intros c].
  destruct (is_fixed_port c); [keeps_tac|].
  destruct (ports c) as [it|]; [|keeps_tac].
  apply keeps_bind; [by apply keeps_next|intros p].
  apply keeps_bind; [done|keeps_tac].
Qed.

Lemma keeps_connect {B} (f : World -> B) self conn ntries left i :
  (forall x w, f (with_kdbs x w) = f w) ->
  keeps f (KDB.connect self conn ntries left i).
Proof.
  intros Hf. revert i. induction left as [|left IH]; intros i; simpl; [keeps_tac|].
  apply keeps_bind; [keeps_tac|intros w].
  destruct (q_open w conn i); [by apply keeps_update_kdb|done].
Qed.

Lemma keeps_KDB_start {B} (f : World -> B) self ntries :
  (forall x w, f (with_kdbs x w) = f w) -> keeps f (KDB.start self ntries).
Proof.
  intros Hf. unfold KDB.start.
  apply keeps_bind; [keeps_tac|intros k].
  apply keeps_bind; [keeps_tac|intros c].
  apply keeps_bind; [by apply keeps_update_kdb|intros _].
  by apply keeps_connect.
Qed.

Lemma keeps_KDB_stop {B} (f : World -> B) self :
  (forall x w, f (with_kdbs x w) = f w) -> keeps f (KDB.stop self).
Proof.
  intros Hf. unfold KDB.stop.
  apply keeps_bind; [keeps_tac|intros k].
  destruct (kdb_q k); [by apply keeps_update_kdb|keeps_tac].
Qed.

Lemma keeps_sync {B} (f : World -> B) conn expr args :
  (forall x w, f (with_wire x w) = f w) -> keeps f (KDB.sync conn expr args).
Proof.
  intros Hf. unfold KDB.sync. destruct (conn_open conn); [|keeps_tac].
  apply keeps_bind; [keeps_tac|intros w].
  apply keeps_bind; [apply keeps_modify; intros; apply Hf|intros _].
  destruct (q_sync _ _); keeps_tac.
Qed.

Lemma keeps_KDB_eval {B} (f : World -> B) self expr args :
  (forall x w, f (with_wire x w) = f w) -> keeps f (KDB.eval self expr args).
Proof.
  intros Hf. unfold KDB.eval, KDB.raw_result.
  apply keeps_bind; [|keeps_tac].
  destruct expr as [s|g]; [|destruct (g args); keeps_tac].
  apply keeps_bind; [keeps_tac|intros k].
  destruct (kdb_q k); [by apply keeps_sync|keeps_tac].
Qed.

(** Drawing a port replaces a [Credentials] object in place: the
    references stay what they were. *)
Lemma keeps_get_port_refs self :
  keeps (fun w => (length (creds w), kdbs w, kqs w)) (Credentials.get_port self).
Proof.
  unfold Credentials.get_port.
  apply keeps_bind; [keeps_tac|intros c].
  destruct (is_fixed_port c); [keeps_tac|].
  destruct (ports c) as [it|]; [|keeps_tac].
  apply keeps_bind; [by apply keeps_next|intros p].
  apply keeps_bind; [|keeps_tac].
  unfold update_cred. apply keeps_bind; [keeps_tac|intros c'].
  apply keeps_modify. intros w. wsimpl. by rewrite length_insert.
Qed.

Lemma keeps_start_loop {B} (f : World -> B) fuel kq mode :
  (forall x w, f (with_ps x w) = f w) ->
  (forall x w, f (with_processes x w) = f w) ->
  (forall x w, f (with_next_pid x w) = f w) ->
  (forall x w, f (with_atexit x w) = f w) ->
  (forall self, keeps f (Credentials.get_port self)) ->
  keeps f (KQ.start_loop fuel kq mode).
Proof.
  intros H1 H2 H3 H4 H5.
  induction fuel as [|fuel IH]; simpl; [keeps_tac|].
  apply keeps_try_except; [by apply keeps_Q_start|].
  intros e h E. destruct e; inversion E; subst; clear E; [|keeps_tac].
  unfold CredsMixin.is_fixed_port.
  apply keeps_bind; [keeps_tac|intros [|]]; [keeps_tac|].
  apply keeps_bind; [apply H5|done].
Qed.

(** [start] and [stop] of a session leave every [KQ] object, so every
    loaded-set, as it was. *)
Lemma keeps_KQ_start self mode : keeps kqs (KQ.start self mode).
Proof.
  unfold KQ.start.
  apply keeps_bind; [keeps_tac|intros kq].
  apply keeps_bind; [keeps_tac|intros w].
  apply keeps_bind; [|intros _; by apply keeps_KDB_start].
  apply keeps_start_loop; try done. intros c. by apply keeps_get_port.
Qed.

Lemma keeps_KQ_stop {B} (f : World -> B) self :
  (forall x w, f (with_ps x w) = f w) ->
  (forall x w, f (with_processes x w) = f w) ->
  (forall x w, f (with_kdbs x w) = f w) ->
  keeps f (KQ.stop self).
Proof.
  intros H1 H2 H3. unfold KQ.stop.
  apply keeps_bind; [keeps_tac|intros kq].
  apply keeps_bind; [by apply keeps_KDB_stop|intros _].
  apply keeps_bind; [by apply keeps_Q_stop|keeps_tac].
Qed.

End SessionFrames.

(** ** Evaluation *)

Section Evaluation.
Context `{Env}.

Lemma sync_Ok_inv conn expr args w v w' :
  KDB.sync conn expr args w = (Ok v, w') ->
  conn_open conn = true /\
  q_sync w (mkRequest (conn_port conn) expr args) = inr v /\
  w' = with_wire (wire w ++ [mkRequest (conn_port conn) expr args]) w.
Proof.
  unfold KDB.sync. destruct (conn_open conn); [|discriminate].
  unfold bind, get_world, modify, ret, raise. simpl.
  destruct (q_sync _ _); intros E; inversion E; subst; done.
Qed.

(** C9.  Whatever the first half of [eval] produced, [eval] returns it
    coerced: a [QTemporal] around a numpy datetime becomes the
    [pd.Timestamp] of that tick count, one around a numpy timedelta the
    [pd.Timedelta] of that tick count (same sign, same magnitude), and a
    result that is no [QTemporal] is returned as it is. *)
Theorem C9_temporal_results_coerced (w : World) (self : kdbref) (expr : Expr)
    (args : list PyVal) (raw : PyVal) (w' : World) :
  KDB.raw_result self expr args w = (Ok raw, w') ->
  exists v,
    KDB.eval self expr args w = (Ok v, w') /\
    match raw with
    | QTemporal (NpDatetime64 t) => v = PdTimestamp t
    | QTemporal (NpTimedelta64 t) => v = PdTimedelta t
    | QTemporal other => v = other
    | _ => v = raw
    end.
Proof.
  intros E. exists (KDB.coerce raw). split.
  - unfold KDB.eval. by rewrite (bind_Ok _ _ _ _ _ E).
  - destruct raw as [| | | | | | | |r| |]; try reflexivity. by destruct r.
Qed.

(** Without a connection: what the four entry points do. *)
Lemma eval_not_started w self :
  not_started w self ->
  (forall s args, KQ.eval self (ExprStr s) args w = (Raise AttributeError, w)) /\
  (forall f args,
     KQ.eval self (ExprCallable f) args w =
       match f args with
       | inl e => (Raise e, w)
       | inr v => (Ok (KDB.coerce v), w)
       end).
Proof.
  intros (kq & k & Hkq & Hk & Hq). split; intros; unfold KQ.eval.
  - rewrite (bind_Ok _ _ _ _ _ (deref_Some kqs _ _ _ Hkq)).
    unfold KDB.eval, KDB.raw_result.
    apply bind_Raise. rewrite (bind_Ok _ _ _ _ _ (deref_Some kdbs _ _ _ Hk)).
    by rewrite Hq.
  - rewrite (bind_Ok _ _ _ _ _ (deref_Some kqs _ _ _ Hkq)).
    unfold KDB.eval, KDB.raw_result, bind. by destruct (f args).
Qed.

(** C4 (as the code has it).  In a session without a connection, [eval]
    of a q expression, [get], and [read_kdb] of a file not yet loaded
    raise [AttributeError] ([self.q] is [None]) and [set] raises
    [TypeError]; none of them changes the store.  [eval] of a callable
    returns what the callable returns, coerced, and [read_kdb] of a
    loaded file returns [None]. *)
Theorem C4_without_connection (w : World) (self : kqref) :
  not_started w self ->
  (forall s args, KQ.eval self (ExprStr s) args w = (Raise AttributeError, w)) /\
  (forall key, KQ.get self key w = (Raise AttributeError, w)) /\
  (forall key value, KQ.set self key value w = (Raise TypeError, w)) /\
  (forall filename kq,
     kqs w !! self = Some kq ->
     KQ.read_kdb self filename w =
       if bool_decide (normpath (abspath filename) ∈ _loaded kq)
       then (Ok PyNone, w) else (Raise AttributeError, w)) /\
  (forall f args v,
     f args = inr v ->
     KQ.eval self (ExprCallable f) args w = (Ok (KDB.coerce v), w)).
Proof.
  intros Hns. destruct (eval_not_started _ _ Hns) as [Hstr Hcall].
  destruct Hns as (kq & k & Hkq & Hk & Hq).
  split; [done|]. split; [|split; [|split]].
  - intros key. unfold KQ.get.
    rewrite (bind_Ok _ _ _ _ _ (deref_Some kqs _ _ _ Hkq)).
    unfold KDB.eval, KDB.raw_result.
    apply bind_Raise. rewrite (bind_Ok _ _ _ _ _ (deref_Some kdbs _ _ _ Hk)).
    by rewrite Hq.
  - intros key value. unfold KQ.set.
    rewrite (bind_Ok _ _ _ _ _ (deref_Some kqs _ _ _ Hkq)).
    rewrite (bind_Ok _ _ _ _ _ (deref_Some kdbs _ _ _ Hk)).
    by rewrite Hq.
  - intros filename kq' Hkq'. rewrite Hkq in Hkq'. inversion Hkq'; subst kq'.
    unfold KQ.read_kdb.
    rewrite (bind_Ok _ _ _ _ _ (deref_Some kqs _ _ _ Hkq)).
    destruct (bool_decide _); [done|].
    apply bind_Raise, Hstr.
  - intros f args v Hf. rewrite Hcall. by rewrite Hf.
Qed.

(** A session that was constructed without starting it has no
    connection, and its parts share its credentials. *)
Lemma init_not_started credentials path verbose w self w' :
  KQ.__init__ credentials StartFalse path verbose w = (Ok self, w') ->
  not_started w' self /\ shares_credentials w' self /\
  (exists kq, kqs w' !! self = Some kq /\ _loaded kq = ∅).
Proof.
  unfold KQ.__init__. intros E.
  apply bind_Ok_inv in E as (c & w1 & Hc & E).
  apply bind_Ok_inv in E as (q & w2 & Hq & E).
  apply bind_Ok_inv in E as (k & w3 & Hk & E).
  apply bind_Ok_inv in E as (s & w4 & Hs & E).
  unfold bind, ret in E. inversion E; subst; clear E.
  unfold Q.__init__ in Hq. apply bind_Ok_inv in Hq as (pth & w2' & _ & Hq).
  inversion Hq; subst; clear Hq.
  unfold KDB.__init__, alloc_kdb in Hk. inversion Hk; subst; clear Hk.
  unfold alloc_kq in Hs. inversion Hs; subst; clear Hs.
  split; [|split].
  - unfold not_started. eexists _, _. lsimpl. split; [reflexivity|].
    cbn [kq_kdb]. lsimpl. split; reflexivity.
  - unfold shares_credentials. eexists _, _. lsimpl. split; [reflexivity|].
    cbn [kq_kdb]. lsimpl. repeat split; reflexivity.
  - eexists. lsimpl. split; reflexivity.
Qed.

(** After [stop], whatever its outcome, the session has no connection. *)
Lemma stop_not_started w self kq k :
  kqs w !! self = Some kq -> kdbs w !! kq_kdb kq = Some k ->
  not_started (snd (KQ.stop self w)) self.
Proof.
  intros Hkq Hk.
  assert (kqs (snd (KQ.stop self w)) = kqs w) as Hkqs by by apply keeps_KQ_stop.
  assert (exists w1 k1, KDB.stop (kq_kdb kq) w = (Ok tt, w1) /\
            kqs w1 = kqs w /\ kdbs w1 !! kq_kdb kq = Some k1 /\ kdb_q k1 = None)
    as (w1 & k1 & Hstop & Hkqs1 & Hk1 & Hq1).
  { unfold KDB.stop. rewrite (bind_Ok _ _ _ _ _ (deref_Some kdbs _ _ _ Hk)).
    destruct (kdb_q k) eqn:Eq.
    - rewrite (update_kdb_Ok _ _ _ _ Hk). eexists _, _. split; [done|].
      assert (kq_kdb kq < length (kdbs w))%nat by (eapply lookup_lt_Some; eauto).
      lsimpl. done.
    - by exists w, k. }
  exists kq, k1. rewrite Hkqs. split; [done|]. split; [|done].
  unfold KQ.stop.
  rewrite (bind_Ok _ _ _ _ _ (deref_Some kqs _ _ _ Hkq)).
  rewrite (bind_Ok _ _ _ _ _ Hstop).
  assert (kdbs (snd (Q.stop (kq_q kq) w1)) = kdbs w1) as Hkd by by apply keeps_Q_stop.
  unfold bind. destruct (Q.stop (kq_q kq) w1) as [[b|e|] w2]; simpl in *;
    by rewrite Hkd.
Qed.

End Evaluation.

(** ** Loading files *)

Section Loading.
Context `{Env}.

(** [read_kdb] of a file that is in the loaded-set: nothing happens. *)
Lemma read_kdb_loaded w self kq filename :
  kqs w !! self = Some kq ->
  normpath (abspath filename) ∈ _loaded kq ->
  KQ.read_kdb self filename w = (Ok PyNone, w).
Proof.
  intros Hkq Hin. unfold KQ.read_kdb.
  rewrite (bind_Ok _ _ _ _ _ (deref_Some kqs _ _ _ Hkq)).
  by rewrite bool_decide_eq_true_2.
Qed.

(** [read_kdb] of a file that is not: when it returns, one request went
    out, the load directive, and the file is in the loaded-set. *)
Lemma read_kdb_fresh w self kq filename r w1 :
  kqs w !! self = Some kq ->
  normpath (abspath filename) ∉ _loaded kq ->
  KQ.read_kdb self filename w = (Ok r, w1) ->
  (exists port, wire w1 = wire w ++ [mkRequest port (load_directive filename) []]) /\
  kqs w1 !! self =
    Some (set_loaded (_loaded kq ∪ {[normpath (abspath filename)]}) kq).
Proof.
  intros Hkq Hnin. unfold KQ.read_kdb.
  rewrite (bind_Ok _ _ _ _ _ (deref_Some kqs _ _ _ Hkq)).
  rewrite bool_decide_eq_false_2 by done. intros E.
  apply bind_Ok_inv in E as (r0 & w' & Heval & E).
  assert (kqs w' = kqs w) as Hkqs.
  { change w' with (snd (Ok r0, w')). rewrite <- Heval.
    unfold KQ.eval. apply keeps_bind; [keeps_tac|intros ?].
    by apply keeps_KDB_eval. }
  unfold KQ.eval in Heval.
  rewrite (bind_Ok _ _ _ _ _ (deref_Some kqs _ _ _ Hkq)) in Heval.
  unfold KDB.eval in Heval. apply bind_Ok_inv in Heval as (raw & w'' & Hraw & Hret).
  inversion Hret; subst; clear Hret.
  unfold KDB.raw_result in Hraw. apply bind_Ok_inv in Hraw as (k & wk & Hk & Hraw).
  unfold deref in Hk. destruct (kdbs w !! kq_kdb kq); inversion Hk; subst; clear Hk.
  destruct (kdb_q k) as [conn|]; [|discriminate].
  apply sync_Ok_inv in Hraw as (_ & _ & ->).
  assert (kqs (with_wire (wire wk ++ [mkRequest (conn_port conn)
             ("\l " +:+ normpath (abspath filename)) []]) wk) !! self = Some kq)
    as Hkq' by done.
  rewrite (bind_Ok _ _ _ _ _ (deref_Some kqs _ _ _ Hkq')) in E.
  rewrite (bind_Ok _ _ _ _ _ (update_kq_Ok _ _ _ _ Hkq')) in E.
  inversion E; subst; clear E.
  assert (self < length (kqs wk))%nat by (eapply lookup_lt_Some; eauto).
  split; [by exists (conn_port conn)|]. by lsimpl.
Qed.

(** C5.  In a session where a file is not loaded yet, when [read_kdb] of
    one name of the file returns, exactly one request has gone out, the
    load directive of the file; [read_kdb] of any name with the same
    normal form then returns [None] and changes nothing, so that the two
    calls together issued the directive once. *)
Theorem C5_read_kdb_loads_once (w : World) (self : kqref) (kq : KQ)
    (p1 p2 : string) (r : PyVal) (w1 : World) :
  kqs w !! self = Some kq ->
  normpath (abspath p1) = normpath (abspath p2) ->
  normpath (abspath p1) ∉ _loaded kq ->
  KQ.read_kdb self p1 w = (Ok r, w1) ->
  KQ.read_kdb self p2 w1 = (Ok PyNone, w1) /\
  exists port, wire w1 = wire w ++ [mkRequest port (load_directive p1) []].
Proof.
  intros Hkq Hsame Hnin Hread.
  destruct (read_kdb_fresh _ _ _ _ _ _ Hkq Hnin Hread) as [Hwire Hkq1].
  split; [|exact Hwire].
  apply (read_kdb_loaded _ _ _ _ Hkq1). rewrite <- Hsame. cbn [_loaded set_loaded].
  apply elem_of_union. right. by apply elem_of_singleton.
Qed.

(** C10.  [stop], and a [start] after it, leave the loaded-set of the
    session as it was, whatever their outcomes; [read_kdb] of a file that
    was loaded before them returns [None] and changes nothing: no
    directive goes to the new server process. *)
Theorem C10_loaded_set_survives_restart (w : World) (self : kqref) (kq : KQ)
    (mode : StartArg) (filename : string) :
  kqs w !! self = Some kq ->
  normpath (abspath filename) ∈ _loaded kq ->
  let w1 := snd (KQ.stop self w) in
  let w2 := snd (KQ.start self mode w1) in
  kqs w1 !! self = Some kq /\
  kqs w2 !! self = Some kq /\
  KQ.read_kdb self filename w2 = (Ok PyNone, w2).
Proof.
  intros Hkq Hin w1 w2.
  assert (kqs w1 = kqs w) as E1 by by apply keeps_KQ_stop.
  assert (kqs w2 = kqs w1) as E2 by apply keeps_KQ_start.
  assert (kqs w2 !! self = Some kq) as Hkq2 by by rewrite E2, E1.
  split; [by rewrite E1|]. split; [done|].
  by apply (read_kdb_loaded _ _ kq).
Qed.

End Loading.

(** ** Stopping the q process *)

Section Stopping.
Context `{Env}.

(** Looking for the process changes nothing, and it reads the
    credentials. *)
Lemma process_or_running_pure q w r w' :
  Q.process_or_running q w = (r, w') -> w' = w.
Proof.
  intros E. change w' with (snd (r, w')). rewrite <- E.
  apply (keeps_process_or_running (fun w => w)).
Qed.

Lemma process_or_running_creds q w o w' :
  Q.process_or_running q w = (Ok o, w') ->
  exists c, creds w !! q_credentials q = Some c.
Proof.
  unfold Q.process_or_running, Q.process, processes_get. intros E.
  apply bind_Ok_inv in E as (p & w1 & E & _).
  apply bind_Ok_inv in E as (c & w2 & E & _).
  unfold deref in E. destruct (creds w !! q_credentials q) as [c'|]; [|done].
  by exists c'.
Qed.

Lemma find_proc_None h table :
  find_proc h table = None <-> forall p, In p table -> os_pid p <> h.
Proof.
  unfold find_proc. split.
  - intros E p Hp Hh. apply (find_none _ _ E) in Hp.
    apply Nat.eqb_neq in Hp. done.
  - intros Hall. induction table as [|p table IH]; [done|]. simpl.
    destruct (Nat.eqb_spec (os_pid p) h) as [Heq|Hne].
    + exfalso. by apply (Hall p); [left|].
    + apply IH. intros p' Hp'. apply Hall. by right.
Qed.

(** [killp] on a table without protected processes: the process is gone
    afterwards, whether it was still there or not. *)
Lemma killp_unprotected h w :
  unprotected w ->
  exists w',
    Q.killp h w = (Ok tt, w') /\
    forall p, In p (ps w') <-> In p (ps w) /\ os_pid p <> h.
Proof.
  intros Hun. unfold Q.killp, try_except, terminate.
  destruct (find_proc h (ps w)) as [p|] eqn:E.
  - assert (os_protected p = false) as ->.
    { apply find_some in E as [Hin _]. unfold unprotected in Hun.
      rewrite Forall_forall in Hun. apply Hun. by apply list_elem_of_In. }
    eexists. split; [done|]. intros p'. wsimpl. rewrite filter_In.
    rewrite negb_true_iff, Nat.eqb_neq. done.
  - exists w. split; [done|]. intros p. split; [|tauto].
    intros Hp. split; [done|]. by apply (proj1 (find_proc_None h (ps w)) E).
Qed.

(** [killp] on a process that has exited already: swallowed. *)
Lemma killp_exited h w :
  find_proc h (ps w) = None -> Q.killp h w = (Ok tt, w).
Proof. intros E. unfold Q.killp, try_except, terminate. by rewrite E. Qed.

Lemma unprotected_shrink w w' :
  unprotected w -> (forall p, In p (ps w') -> In p (ps w)) -> unprotected w'.
Proof.
  unfold unprotected. rewrite !Forall_forall. intros Hun Hsub p Hp.
  apply Hun, list_elem_of_In, Hsub, list_elem_of_In, Hp.
Qed.

Lemma kill_all_unprotected hs : forall w,
  unprotected w ->
  exists w',
    Q.kill_all hs w = (Ok tt, w') /\
    (forall p, In p (ps w') -> In p (ps w)).
Proof.
  induction hs as [|h hs IH]; intros w Hun; simpl.
  - by exists w.
  - destruct (killp_unprotected h w Hun) as (w1 & Hk & Hps).
    destruct (IH w1) as (w2 & Hk2 & Hps2).
    { apply (unprotected_shrink w); [done|]. intros p Hp. by apply Hps. }
    exists w2. split; [by rewrite (bind_Ok _ _ _ _ _ Hk)|].
    intros p Hp. by apply Hps, Hps2.
Qed.

(** Removing the registry entry, with [KeyError] swallowed, returns. *)
Lemma processes_del_swallowed key w c :
  creds w !! key = Some c ->
  exists w',
    try_except (processes_del key)
      (fun e => match e with KeyError => Some (ret tt) | _ => None end) w
      = (Ok tt, w') /\
    ps w' = ps w.
Proof.
  intros Hc. unfold try_except, processes_del.
  rewrite (bind_Ok _ _ _ _ _ (deref_Some creds _ _ _ Hc)).
  unfold bind, get_world. destruct (List.find _ _); eexists; split; done.
Qed.

(** A found process and no protected one in the table: [stop] returns
    [True] and the process is not in the table afterwards. *)
Lemma Q_stop_found q w h :
  Q.process_or_running q w = (Ok (Some h), w) ->
  unprotected w ->
  exists w', Q.stop q w = (Ok true, w') /\ find_proc h (ps w') = None.
Proof.
  intros Hfound Hun.
  destruct (process_or_running_creds _ _ _ _ Hfound) as [c Hc].
  assert (exists w1,
    try_except (cs <- children h ;; Q.kill_all cs)
      (fun e => match e with NoSuchProcess => Some (ret tt) | _ => None end) w
      = (Ok tt, w1) /\
    (forall p, In p (ps w1) -> In p (ps w)) /\ creds w1 = creds w)
    as (w1 & Hstep1 & Hps1 & Hcreds1).
  { assert (forall w1 r, try_except (cs <- children h ;; Q.kill_all cs)
      (fun e => match e with NoSuchProcess => Some (ret tt) | _ => None end) w
      = (r, w1) -> creds w1 = creds w) as Hframe.
    { intros w1 r E. change w1 with (snd (r, w1)). rewrite <- E.
      apply keeps_try_except; [|keeps_handler; keeps_tac].
      apply keeps_bind; [keeps_tac|intros ?]. by apply keeps_kill_all. }
    unfold try_except, bind, children in *.
    destruct (find_proc h (ps w)); [|by exists w].
    destruct (kill_all_unprotected
                (List.map os_pid (List.filter (fun p => Nat.eqb (os_ppid p) h) (ps w)))
                w Hun) as (w1 & Hk & Hps).
    rewrite Hk in *. exists w1. split; [done|]. split; [done|]. by eapply Hframe. }
  destruct (killp_unprotected h w1) as (w2 & Hstep2 & Hps2).
  { by apply (unprotected_shrink w). }
  assert (creds w2 = creds w1) as Hcreds2.
  { change w2 with (snd (Ok tt, w2)). rewrite <- Hstep2. by apply keeps_killp. }
  destruct (processes_del_swallowed (q_credentials q) w2 c) as (w3 & Hstep3 & Hps3).
  { by rewrite Hcreds2, Hcreds1. }
  exists w3. split.
  - unfold Q.stop. rewrite (bind_Ok _ _ _ _ _ Hfound).
    rewrite (bind_Ok _ _ _ _ _ Hstep1), (bind_Ok _ _ _ _ _ Hstep2).
    by rewrite (bind_Ok _ _ _ _ _ Hstep3).
  - apply find_proc_None. intros p Hp. rewrite Hps3 in Hp. by apply Hps2 in Hp as [_ ?].
Qed.

(** A found process that exited before the kill: [stop] returns [True]
    all the same, and the table is as it was. *)
Lemma Q_stop_exited q w h :
  Q.process_or_running q w = (Ok (Some h), w) ->
  find_proc h (ps w) = None ->
  exists w', Q.stop q w = (Ok true, w') /\ ps w' = ps w.
Proof.
  intros Hfound Hgone.
  destruct (process_or_running_creds _ _ _ _ Hfound) as [c Hc].
  destruct (processes_del_swallowed (q_credentials q) w c Hc) as (w3 & Hstep3 & Hps3).
  exists w3. split; [|done].
  unfold Q.stop. rewrite (bind_Ok _ _ _ _ _ Hfound).
  assert (try_except (cs <- children h ;; Q.kill_all cs)
      (fun e => match e with NoSuchProcess => Some (ret tt) | _ => None end) w
      = (Ok tt, w)) as Hstep1.
  { unfold try_except, bind, children. by rewrite Hgone. }
  rewrite (bind_Ok _ _ _ _ _ Hstep1), (bind_Ok _ _ _ _ _ (killp_exited _ _ Hgone)).
  by rewrite (bind_Ok _ _ _ _ _ Hstep3).
Qed.

(** C8.  With no process owned or found for the port, the supervisor's
    [stop] returns [False] and changes nothing, and so does the [stop]
    of a session that has no connection either; with a process found,
    [stop] returns [True], with the process out of the table when no
    process refuses termination, and also when the process had exited
    before the kill. *)
Theorem C8_stop_outcomes (w : World) (q : Q) :
  (Q.process_or_running q w = (Ok None, w) ->
   Q.stop q w = (Ok false, w) /\
   forall self kq,
     kqs w !! self = Some kq -> kq_q kq = q -> not_started w self ->
     KQ.stop self w = (Ok tt, w)) /\
  (forall h,
     Q.process_or_running q w = (Ok (Some h), w) -> unprotected w ->
     exists w', Q.stop q w = (Ok true, w') /\ find_proc h (ps w') = None) /\
  (forall h,
     Q.process_or_running q w = (Ok (Some h), w) -> find_proc h (ps w) = None ->
     exists w', Q.stop q w = (Ok true, w') /\ ps w' = ps w).
Proof.
  split; [|split].
  - intros Hnone.
    assert (Q.stop q w = (Ok false, w)) as Hstop.
    { unfold Q.stop. by rewrite (bind_Ok _ _ _ _ _ Hnone). }
    split; [done|]. intros self kq Hkq <- (kq' & k & Hkq' & Hk & Hq).
    rewrite Hkq in Hkq'. inversion Hkq'; subst kq'.
    unfold KQ.stop. rewrite (bind_Ok _ _ _ _ _ (deref_Some kqs _ _ _ Hkq)).
    assert (KDB.stop (kq_kdb kq) w = (Ok tt, w)) as Hkstop.
    { unfold KDB.stop. rewrite (bind_Ok _ _ _ _ _ (deref_Some kdbs _ _ _ Hk)).
      by rewrite Hq. }
    rewrite (bind_Ok _ _ _ _ _ Hkstop). by rewrite (bind_Ok _ _ _ _ _ Hstop).
  - intros h. apply Q_stop_found.
  - intros h. apply Q_stop_exited.
Qed.

End Stopping.

(** ** Starting a session *)

Section Starting.
Context `{Env}.

Lemma pooled_pool w self items : pooled w self items -> KQ.pool self w = items.
Proof.
  intros (c & it & Hc & _ & Hp & Hi). unfold KQ.pool. by rewrite Hc, Hp, Hi.
Qed.

(** One round of the loop whose [self.q.start] met a busy port. *)
Lemma start_loop_port_in_use fuel kq mode w busy w1 :
  Q.start (kq_q kq) mode w = (Raise (PortInUse busy), w1) ->
  KQ.start_loop (S fuel) kq mode w =
    (fixed <- CredsMixin.is_fixed_port (kq_credentials kq) ;;
     if (fixed : bool) then raise PortIsFixed
     else
       Credentials.get_port (kq_credentials kq) ;;;
       KQ.start_loop fuel kq mode) w1.
Proof.
  intros E. cbn [KQ.start_loop]. by rewrite (try_except_Raise _ _ _ _ _ E).
Qed.


End Starting.

(** ** The loop of [start] ends

    The rounds [start] gives its loop are enough: with the references of
    the session in place, [start] returns or raises. *)

Section Termination.
Context `{Env}.

Lemma ror_bind {A B} (m : M A) (k : A -> M B) w :
  returns_or_raises m w ->
  (forall a w', m w = (Ok a, w') -> returns_or_raises (k a) w') ->
  returns_or_raises (bind m k) w.
Proof.
  unfold returns_or_raises, bind. intros Hm Hk.
  destruct (m w) as [[a|e|] w'] eqn:E; simpl in *; [by apply Hk|done|done].
Qed.

Lemma ror_try_except {A} (m : M A) handler w :
  returns_or_raises m w ->
  (forall e w' h, m w = (Raise e, w') -> handler e = Some h ->
                  returns_or_raises h w') ->
  returns_or_raises (try_except m handler) w.
Proof.
  unfold returns_or_raises, try_except. intros Hm Hh.
  destruct (m w) as [[a|e|] w'] eqn:E; simpl in *; [done| |done].
  destruct (handler e) as [h|] eqn:Eh; [by eapply Hh|done].
Qed.

Lemma ror_deref {A} (table : World -> list A) r w :
  is_Some (table w !! r) -> returns_or_raises (deref table r) w.
Proof. intros [x E]. unfold returns_or_raises, deref. by rewrite E. Qed.

(** What a computation that came back left of [f]. *)
Lemma kept {A B} (f : World -> B) (m : M A) w r w' :
  keeps f m -> m w = (r, w') -> f w' = f w.
Proof. intros Hk E. change w' with (snd (r, w')). rewrite <- E. apply Hk. Qed.

Lemma ror_processes_get key w :
  is_Some (creds w !! key) -> returns_or_raises (processes_get key) w.
Proof.
  intros Hc. unfold processes_get.
  apply ror_bind; [by apply ror_deref|intros c w1 _].
  apply ror_bind; done.
Qed.

Lemma ror_processes_set key v w :
  is_Some (creds w !! key) -> returns_or_raises (processes_set key v) w.
Proof.
  intros Hc. unfold processes_set.
  apply ror_bind; [by apply ror_deref|intros c w1 _].
  apply ror_bind; [done|intros w2 w3 _]. by destruct (List.find _ _).
Qed.

Lemma ror_processes_del key w :
  is_Some (creds w !! key) -> returns_or_raises (processes_del key) w.
Proof.
  intros Hc. unfold processes_del.
  apply ror_bind; [by apply ror_deref|intros c w1 _].
  apply ror_bind; [done|intros w2 w3 _]. by destruct (List.find _ _).
Qed.

Lemma ror_process_or_running q w :
  is_Some (creds w !! q_credentials q) ->
  returns_or_raises (Q.process_or_running q) w.
Proof.
  intros Hc. unfold Q.process_or_running, Q.find_running_process, Q.process.
  apply ror_bind; [by apply ror_processes_get|intros [h|] w1 E1]; [done|].
  apply (kept creds) in E1 as Hc1; [|apply keeps_processes_get].
  apply ror_bind; [apply ror_processes_get; by rewrite Hc1|intros [h|] w2 E2]; [done|].
  apply (kept creds) in E2 as Hc2; [|apply keeps_processes_get].
  unfold CredsMixin.port.
  apply ror_bind; [|intros p w3 _; by apply ror_bind].
  apply ror_bind; [|done]. apply ror_deref. by rewrite Hc2, Hc1.
Qed.

Lemma ror_killp h w : returns_or_raises (Q.killp h) w.
Proof.
  unfold returns_or_raises, Q.killp, try_except, terminate.
  destruct (find_proc h (ps w)) as [p|]; [|done]. by destruct (os_protected p).
Qed.

Lemma ror_kill_all hs : forall w, returns_or_raises (Q.kill_all hs) w.
Proof.
  induction hs as [|h hs IH]; intros w; [done|]. simpl.
  apply ror_bind; [apply ror_killp|intros; apply IH].
Qed.

Lemma ror_Q_stop q w :
  is_Some (creds w !! q_credentials q) -> returns_or_raises (Q.stop q) w.
Proof.
  intros Hc. unfold Q.stop.
  apply ror_bind; [by apply ror_process_or_running|intros [h|] w1 E1]; [|done].
  apply (kept creds) in E1 as Hc1; [|apply keeps_process_or_running].
  apply ror_bind.
  { apply ror_try_except.
    - apply ror_bind; [|intros; apply ror_kill_all].
      unfold returns_or_raises, children. by destruct (find_proc h (ps w1)).
    - intros e w2 hd _ Eh. destruct e; inversion Eh. done. }
  intros [] w2 E2.
  assert (creds w2 = creds w1) as Hc2.
  { revert E2. apply kept. apply keeps_try_except; [|keeps_handler; keeps_tac].
    apply keeps_bind; [keeps_tac|intros ?]. by apply keeps_kill_all. }
  apply ror_bind; [apply ror_killp|intros [] w3 E3].
  apply (kept creds) in E3 as Hc3; [|by apply keeps_killp].
  apply ror_bind; [|done].
  apply ror_try_except.
  - apply ror_processes_del. by rewrite Hc3, Hc2, Hc1.
  - intros e w4 hd _ Eh. destruct e; inversion Eh. done.
Qed.

Lemma ror_Q_start q mode w :
  is_Some (creds w !! q_credentials q) -> returns_or_raises (Q.start q mode) w.
Proof.
  intros Hc. unfold Q.start.
  apply ror_bind.
  { destruct mode; [| |done].
    - apply ror_bind; [by apply ror_processes_get|done].
    - apply ror_bind; [by apply ror_Q_stop|done]. }
  intros returned w1 E1.
  assert (creds w1 = creds w) as Hc1.
  { revert E1. apply kept. destruct mode; [| |keeps_tac].
    - apply keeps_bind; [apply keeps_processes_get|keeps_tac].
    - apply keeps_bind; [by apply keeps_Q_stop|keeps_tac]. }
  destruct returned; [done|].
  apply ror_bind; [apply ror_process_or_running; by rewrite Hc1|intros proc w2 E2].
  apply (kept creds) in E2 as Hc2; [|apply keeps_process_or_running].
  unfold CredsMixin.port.
  apply ror_bind.
  { apply ror_bind; [|done]. apply ror_deref. by rewrite Hc2, Hc1. }
  intros p w3 E3.
  assert (creds w3 = creds w2) as Hc3 by (revert E3; apply kept; keeps_tac).
  destruct proc; [done|].
  apply ror_bind; [done|intros h w4 E4].
  apply (kept creds) in E4 as Hc4; [|by apply keeps_Popen].
  apply ror_bind; [|done].
  apply ror_processes_set. by rewrite Hc4, Hc3, Hc2, Hc1.
Qed.

Lemma start_loop_returns_or_raises fuel : forall kq mode w,
  q_credentials (kq_q kq) = kq_credentials kq ->
  drawable w (kq_credentials kq) ->
  (length (KQ.pool (kq_credentials kq) w) < fuel)%nat ->
  returns_or_raises (KQ.start_loop fuel kq mode) w.
Proof.
  induction fuel as [|fuel IH]; intros kq mode w Hq (c & Hc & Hit) Hfuel; [lia|].
  cbn [KQ.start_loop].
  apply ror_try_except; [apply ror_Q_start; by rewrite Hq, Hc|].
  intros e w1 hd E1 Eh.
  assert ((creds w1, iters w1) = (creds w, iters w)) as Hobj.
  { revert E1. apply (kept (fun w => (creds w, iters w))). by apply keeps_Q_start. }
  inversion Hobj as [[Hc1 Hi1]].
  destruct e; inversion Eh; subst hd; clear Eh; [|done].
  unfold CredsMixin.is_fixed_port.
  apply ror_bind.
  { apply ror_bind; [|done]. apply ror_deref. by rewrite Hc1, Hc. }
  intros fixed w2 E2.
  assert (w2 = w1 /\ fixed = is_fixed_port c) as [-> ->].
  { unfold bind, deref in E2. rewrite Hc1, Hc in E2. by inversion E2. }
  destruct (is_fixed_port c) eqn:Hf; [done|].
  destruct (ports c) as [it|] eqn:Hp.
  - destruct (Hit eq_refl it eq_refl) as [items Hi].
    assert (pooled w1 (kq_credentials kq) items) as Hpool.
    { exists c, it. by rewrite Hc1, Hi1. }
    assert (KQ.pool (kq_credentials kq) w = items) as Hlen.
    { unfold KQ.pool. by rewrite Hc, Hp, Hi. }
    destruct items as [|p rest].
    + unfold returns_or_raises.
      by rewrite (bind_Raise _ _ _ _ _ (get_port_exhausted _ _ Hpool)).
    + destruct (get_port_pooled _ _ _ _ Hpool) as (w3 & Hget & Hpool3 & _).
      unfold returns_or_raises. rewrite (bind_Ok _ _ _ _ _ Hget).
      apply IH; [done| |].
      * destruct Hpool3 as (c3 & it3 & Hc3 & Hf3 & Hp3 & Hi3).
        exists c3. split; [done|]. intros _ it' Hit'. rewrite Hp3 in Hit'.
        inversion Hit'; subst. by rewrite Hi3.
      * rewrite (pooled_pool _ _ _ Hpool3). rewrite Hlen in Hfuel. simpl in Hfuel. lia.
  - unfold returns_or_raises, bind, Credentials.get_port, bind, deref.
    by rewrite Hc1, Hc, Hf, Hp.
Qed.

(** [start] of a session whose parts share its credentials returns or
    raises: the loop never needs more rounds than it is given. *)
Lemma start_returns_or_raises w self mode :
  shares_credentials w self ->
  (exists kq, kqs w !! self = Some kq /\ drawable w (kq_credentials kq)) ->
  returns_or_raises (KQ.start self mode) w.
Proof.
  intros (kq & k & Hkq & Hk & Hqc & Hkc) (kq' & Hkq' & Hdraw).
  rewrite Hkq in Hkq'. injection Hkq' as <-.
  unfold KQ.start.
  apply ror_bind; [by apply ror_deref|intros kq1 w1 E1].
  unfold deref in E1. rewrite Hkq in E1. injection E1 as <- <-.
  apply ror_bind; [done|intros w2 w3 E2]. injection E2 as <- <-.
  apply ror_bind; [apply start_loop_returns_or_raises; [done|done|lia]|].
  intros [] w4 E4.
  assert (keeps (fun w => (length (creds w), kdbs w, kqs w))
            (KQ.start_loop (S (length (KQ.pool (kq_credentials kq) w))) kq mode))
    as Hkeeps.
  { apply keeps_start_loop; try done. apply keeps_get_port_refs. }
  pose proof (kept _ _ _ _ _ Hkeeps E4) as Hobj. cbv beta in Hobj.
  injection Hobj as Hc4 Hk4 _.
  destruct Hdraw as (c & Hc & _).
  assert (is_Some (creds w4 !! kq_credentials kq)) as [c4 Hc4'].
  { apply lookup_lt_is_Some. rewrite Hc4. by eapply lookup_lt_Some. }
  assert (kdbs w4 !! kq_kdb kq = Some k) as Hk4' by by rewrite Hk4.
  unfold KDB.start.
  apply ror_bind; [by apply ror_deref|intros k1 w5 E5].
  unfold deref in E5. rewrite Hk4' in E5. injection E5 as <- <-.
  apply ror_bind; [apply ror_deref; by rewrite Hkc, Hc4'|intros c1 w6 E6].
  unfold deref in E6. rewrite Hkc, Hc4' in E6. injection E6 as <- <-.
  apply ror_bind.
  { unfold returns_or_raises. by rewrite (update_kdb_Ok _ _ _ _ Hk4'). }
  intros [] w7 E7. rewrite (update_kdb_Ok _ _ _ _ Hk4') in E7. injection E7 as <-.
  assert (forall left i w,
    is_Some (kdbs w !! kq_kdb kq) ->
    returns_or_raises
      (KDB.connect (kq_kdb kq)
         (mkQConnection (host c4) (port c4) (username c4) (password c4) false)
         1000 left i) w) as Hconn.
  { induction left as [|left IH]; intros i w' [k0 Hk0]; [done|]. cbn [KDB.connect].
    apply ror_bind; [done|intros w1 w2 E]. injection E as <- <-.
    destruct (q_open _ _ _); [|by apply IH].
    unfold returns_or_raises. by rewrite (update_kdb_Ok _ _ _ _ Hk0). }
  apply Hconn. wsimpl.
  assert (kq_kdb kq < length (kdbs w4))%nat by (by eapply lookup_lt_Some).
  by rewrite list_lookup_insert_eq.
Qed.

End Termination.

(** ** Further properties of the session *)

Section Further.
Context `{Env}.

(** [start] comes back: for a session whose parts share its credentials,
    [start] returns or raises, whatever the mode and however many ports
    are taken. *)
Theorem start_comes_back (w : World) (self : kqref) (mode : StartArg) :
  shares_credentials w self ->
  (exists kq, kqs w !! self = Some kq /\ drawable w (kq_credentials kq)) ->
  exists r w', KQ.start self mode w = (r, w') /\ r <> Stuck.
Proof.
  intros Hs Hd. pose proof (start_returns_or_raises w self mode Hs Hd) as Hror.
  unfold returns_or_raises in Hror.
  destruct (KQ.start self mode w) as [r w'] eqn:E. by exists r, w'.
Qed.

(** [start(True)] of a session that owns a process: [self.q.start]
    returns at once, and [start] leaves the process table, the registry
    and the next process id as they were. *)
Theorem start_again_spawns_nothing (w : World) (self : kqref) (kq : KQ)
    (h : pid) :
  kqs w !! self = Some kq ->
  Q.process (kq_q kq) w = (Ok (Some h), w) ->
  Q.start (kq_q kq) StartTrue w = (Ok tt, w) /\
  let w' := snd (KQ.start self StartTrue w) in
  ps w' = ps w /\ processes w' = processes w /\ next_pid w' = next_pid w.
Proof.
  intros Hkq Hproc.
  assert (Q.start (kq_q kq) StartTrue w = (Ok tt, w)) as Hstart.
  { unfold Q.start. by rewrite (bind_Ok _ _ _ _ _ (bind_Ok _ _ _ _ _ Hproc)). }
  split; [done|]. cbv zeta.
  assert (forall w1, KQ.start self StartTrue w = w1 ->
            (ps (snd w1), processes (snd w1), next_pid (snd w1))
            = (ps w, processes w, next_pid w)) as Hframe.
  { intros w1 <-. unfold KQ.start.
    rewrite (bind_Ok _ _ _ _ _ (deref_Some kqs _ _ _ Hkq)).
    rewrite (bind_Ok get_world _ w w w eq_refl).
    cbn [KQ.start_loop]. rewrite (bind_Ok _ _ _ _ _ (try_except_Ok _ _ _ _ _ Hstart)).
    apply (keeps_KDB_start (fun w => (ps w, processes w, next_pid w))). done. }
  specialize (Hframe _ eq_refl). by injection Hframe.
Qed.

(** A q process of somebody else on the port of fixed-port credentials:
    [start], in a mode other than ['restart'], raises [PortIsFixed] and
    leaves the store as it was; nothing is spawned. *)
Theorem fixed_port_conflict_spawns_nothing (w : World) (self : kqref) (kq : KQ)
    (c : Credentials) (h : pid) (mode : StartArg) :
  kqs w !! self = Some kq ->
  q_credentials (kq_q kq) = kq_credentials kq ->
  creds w !! kq_credentials kq = Some c ->
  is_fixed_port c = true ->
  mode <> StartRestart ->
  Q.process (kq_q kq) w = (Ok None, w) ->
  Q.process_iter_scan (port c) (ps w) = Some h ->
  KQ.start self mode w = (Raise PortIsFixed, w).
Proof.
  intros Hkq Hqc Hc Hf Hmode Hproc Hscan.
  assert (CredsMixin.port (q_credentials (kq_q kq)) w = (Ok (port c), w)) as Hport.
  { unfold CredsMixin.port. rewrite Hqc.
    by rewrite (bind_Ok _ _ _ _ _ (deref_Some creds _ _ _ Hc)). }
  assert (Q.process_or_running (kq_q kq) w = (Ok (Some h), w)) as Hfound.
  { unfold Q.process_or_running, Q.find_running_process.
    rewrite (bind_Ok _ _ _ _ _ Hproc), (bind_Ok _ _ _ _ _ Hproc).
    rewrite (bind_Ok _ _ _ _ _ Hport).
    rewrite (bind_Ok get_world _ w w w eq_refl). by rewrite Hscan. }
  assert (Q.start (kq_q kq) mode w = (Raise (PortInUse (port c)), w)) as Hbusy.
  { unfold Q.start. destruct mode; [| done |].
    - rewrite (bind_Ok _ _ _ _ _ (bind_Ok _ _ _ _ _ Hproc)). cbn.
      rewrite (bind_Ok _ _ _ _ _ Hfound). by rewrite (bind_Ok _ _ _ _ _ Hport).
    - rewrite (bind_Ok (ret false) _ w false w eq_refl).
      rewrite (bind_Ok _ _ _ _ _ Hfound). by rewrite (bind_Ok _ _ _ _ _ Hport). }
  unfold KQ.start.
  rewrite (bind_Ok _ _ _ _ _ (deref_Some kqs _ _ _ Hkq)).
  rewrite (bind_Ok get_world _ w w w eq_refl).
  apply bind_Raise. rewrite (start_loop_port_in_use _ _ _ _ _ _ Hbusy).
  unfold CredsMixin.is_fixed_port.
  rewrite (bind_Ok _ _ _ _ _ (bind_Ok _ _ _ _ _ (deref_Some creds _ _ _ Hc))).
  by rewrite Hf.
Qed.

(** [__copy__] of an instance without [ports], as a fixed-port instance
    is: the new default instance has the attribute, the original has
    not, and reading [self.ports] raises [AttributeError]. *)
Theorem copy_of_fixed_raises (w : World) (self : cref) (c : Credentials) :
  creds w !! self = Some c ->
  ports c = None ->
  fst (Credentials.__copy__ self w) = Raise AttributeError.
Proof.
  intros Hc Hp.
  destruct (init_pooled w None None None) as (p' & items' & E & Hinit).
  cbv zeta in Hinit.
  assert (self < length (creds w))%nat as Hself by (eapply lookup_lt_Some; eauto).
  unfold Credentials.__copy__.
  rewrite (bind_Ok _ _ _ _ _ Hinit).
  match goal with
  | |- fst (bind (deref creds self) ?k ?w1) = _ =>
      assert (creds w1 !! self = Some c) as Hc1 by (by lsimpl)
  end.
  rewrite (bind_Ok _ _ _ _ _ (deref_Some creds _ _ _ Hc1)). rewrite Hp.
  rewrite (bind_Ok (ret tt) _ _ tt _ eq_refl).
  match goal with
  | |- fst (bind (deref creds ?n) ?k ?w1) = _ =>
      assert (creds w1 !! n
              = Some (mkCredentials (default hostname None) p'
                        (default getuser None) (default "" None) false
                        (Some (length (iters w))))) as Hn by (by lsimpl)
  end.
  rewrite (bind_Ok _ _ _ _ _ (deref_Some creds _ _ _ Hn)). reflexivity.
Qed.

End Further.

(** ** The properties at work in the reference environment *)

Section Instances.

#[local] Existing Instance ref_env.

Local Open Scope Z_scope.


(** C2, at the failing input.  [Credentials(host='db1',
    username='alice', password='s3cret')] holds port 47823 and would
    draw 47824 next.  Its copy is [Credentials()] with the pool of the
    original: host, user name, password and port are the defaults and a
    fresh first port, and the original is left with an empty pool, so
    that its next draw raises [StopIteration]. *)
Lemma C2_copy_at_failing_input :
  creds Scenario.pooled_credentials !! 0%nat
    = Some (mkCredentials "db1" 47823 "alice" "s3cret" false (Some 0%nat)) /\
  fst (Credentials.get_port 0 Scenario.pooled_credentials) = Ok 47824 /\
  exists w',
    Credentials.__copy__ 0 Scenario.pooled_credentials = (Ok 1%nat, w') /\
    creds w' !! 1%nat
      = Some (mkCredentials "localhost" 47824 "kdb" "" false (Some 2%nat)) /\
    pooled w' 1 (seqZ 47824 99) /\
    pooled w' 0 [] /\
    Credentials.get_port 0 w' = (Raise StopIteration, w').
Proof.
  split; [vm_compute; reflexivity|]. split; [vm_compute; reflexivity|].
  eexists. split; [vm_compute; reflexivity|].
  split; [vm_compute; reflexivity|]. split; [|split].
  - eexists _, _. vm_compute. done.
  - eexists _, _. vm_compute. done.
  - vm_compute. reflexivity.
Qed.

(** C3, at work: two instances with the same five slots are equal,
    whatever their pools; and with a [hash] that never collides, a
    fixed-port and a pooled instance with the same four fields are equal
    exactly when all five slots agree, which they do not. *)
Lemma C3_witness :
  Credentials.__eq__ (mkCredentials "localhost" 47823 "kdb" "" false (Some 0%nat))
                     (mkCredentials "localhost" 47823 "kdb" "" false (Some 7%nat))
    = true /\
  (Credentials.__eq__ (H:=collision_free_env)
     (mkCredentials "localhost" 47823 "kdb" "" true None)
     (mkCredentials "localhost" 47823 "kdb" "" false (Some 0%nat)) = true <->
   "localhost" = "localhost" /\ 47823 = 47823 /\ "kdb" = "kdb" /\ "" = "" /\
   true = false).
Proof.
  split.
  - exact (proj1 (proj2 (proj2 (C3_eq_compares_slot_hashes
                           (mkCredentials "localhost" 47823 "kdb" "" false (Some 0%nat))
                           (mkCredentials "localhost" 47823 "kdb" "" false (Some 7%nat)))))
             eq_refl).
  - apply (proj2 (proj2 (proj2 (C3_eq_compares_slot_hashes (H:=collision_free_env)
                     (mkCredentials "localhost" 47823 "kdb" "" true None)
                     (mkCredentials "localhost" 47823 "kdb" "" false (Some 0%nat)))))).
    intros s t E. simpl in E. injection E as E. by apply (inj encode).
Defined.

(** C3, refuted as stated: [Credentials(port=47823)] and a
    [Credentials()] that drew 47823 agree on host, port, user name and
    password, and are not equal. *)
Lemma C3_counterexample :
  exists a b,
    creds Scenario.fixed_and_pooled !! 0%nat = Some a /\
    creds Scenario.fixed_and_pooled !! 1%nat = Some b /\
    host a = host b /\ port a = port b /\
    username a = username b /\ password a = password b /\
    Credentials.__eq__ a b = false.
Proof.
  exists (mkCredentials "localhost" 47823 "kdb" "" true None),
         (mkCredentials "localhost" 47823 "kdb" "" false (Some 0%nat)).
  vm_compute. done.
Qed.

(** With the hashes of CPython, the ports -1 and -2 collide: instances
    that differ in their port can be equal. *)
Lemma eq_of_colliding_ports :
  Credentials.__eq__ (mkCredentials "localhost" (-1) "kdb" "" true None)
                     (mkCredentials "localhost" (-2) "kdb" "" true None)
    = true.
Proof. vm_compute. reflexivity. Qed.

(** C4, at work: the session that was not started. *)
Lemma C4_witness :
  KQ.eval 0 (ExprStr "1+1") [] Scenario.unstarted
    = (Raise AttributeError, Scenario.unstarted) /\
  KQ.get 0 "x" Scenario.unstarted = (Raise AttributeError, Scenario.unstarted) /\
  KQ.set 0 "x" (PyInt 42) Scenario.unstarted = (Raise TypeError, Scenario.unstarted) /\
  KQ.read_kdb 0 "t.q" Scenario.unstarted
    = (Raise AttributeError, Scenario.unstarted).
Proof.
  assert (not_started Scenario.unstarted 0) as Hns.
  { exists Scenario.the_session, (mkKDB 0 None). vm_compute. done. }
  destruct (C4_without_connection Scenario.unstarted 0 Hns)
    as (Heval & Hget & Hset & Hread & _).
  split; [apply Heval|]. split; [apply Hget|]. split; [apply Hset|].
  apply (Hread "t.q" Scenario.the_session). vm_compute. reflexivity.
Defined.

(** C4, refuted as stated: in the session that was not started, [eval]
    of a callable returns what the callable returns; and in the session
    that was stopped, [read_kdb] of the loaded file returns [None]. *)
Lemma C4_counterexample :
  KQ.eval 0 (ExprCallable (fun _ => inr (PyInt 42))) [] Scenario.unstarted
    = (Ok (PyInt 42), Scenario.unstarted) /\
  not_started Scenario.unstarted 0 /\
  not_started (snd (KQ.stop 0 Scenario.loaded)) 0 /\
  fst (KQ.read_kdb 0 "t.q" (snd (KQ.stop 0 Scenario.loaded))) = Ok PyNone.
Proof.
  split; [vm_compute; reflexivity|]. split; [|split].
  - exists Scenario.the_session, (mkKDB 0 None). vm_compute. done.
  - eexists _, (mkKDB 0 None). vm_compute. done.
  - vm_compute. reflexivity.
Qed.

(** C5, at work: [read_kdb('t.q')], then [read_kdb('/home/kdb/t.q')]. *)
Lemma C5_witness :
  KQ.read_kdb 0 "/home/kdb/t.q" Scenario.loaded = (Ok PyNone, Scenario.loaded) /\
  exists port,
    wire Scenario.loaded
      = wire Scenario.running ++ [mkRequest port (load_directive "t.q") []].
Proof.
  refine (C5_read_kdb_loads_once Scenario.running 0 Scenario.the_session "t.q"
            "/home/kdb/t.q" PyNone Scenario.loaded _ _ _ _);
    try (vm_compute; reflexivity).
  apply not_elem_of_empty.
Defined.


(** C7, at work: three calls on [Credentials(port=47823)]. *)
Lemma C7_witness :
  let w' := Nat.iter 3 (fun w => snd (Credentials.get_port 0 w))
              Scenario.fixed_credentials in
  Credentials.get_port 0 w' = (Raise PortIsFixed, w') /\
  w' = Scenario.fixed_credentials /\
  port <$> creds w' !! 0%nat = Some 47823.
Proof.
  exact (C7_fixed_port_never_reallocated Scenario.fixed_credentials 0
           (mkCredentials "localhost" 47823 "kdb" "" true None) 3 eq_refl eq_refl).
Defined.

(** C8, at work: [stop] of the session that was not started, of the
    running session, and of the session whose process has exited. *)
Lemma C8_witness :
  (Q.stop (mkQ 0 "/usr/bin/q") Scenario.unstarted = (Ok false, Scenario.unstarted) /\
   KQ.stop 0 Scenario.unstarted = (Ok tt, Scenario.unstarted)) /\
  (exists w',
     Q.stop (mkQ 0 "/usr/bin/q") Scenario.running = (Ok true, w') /\
     find_proc 1 (ps w') = None) /\
  (exists w',
     Q.stop (mkQ 0 "/usr/bin/q") Scenario.crashed = (Ok true, w') /\
     ps w' = ps Scenario.crashed).
Proof.
  split; [|split].
  - destruct (proj1 (C8_stop_outcomes Scenario.unstarted (mkQ 0 "/usr/bin/q")))
      as [Hq Hkq]; [vm_compute; reflexivity|].
    split; [exact Hq|].
    apply (Hkq 0%nat Scenario.the_session); [vm_compute; reflexivity|reflexivity|].
    exists Scenario.the_session, (mkKDB 0 None). vm_compute. done.
  - apply (proj1 (proj2 (C8_stop_outcomes Scenario.running (mkQ 0 "/usr/bin/q"))) 1%nat).
    + vm_compute. reflexivity.
    + unfold unprotected. vm_compute. repeat constructor.
  - apply (proj2 (proj2 (C8_stop_outcomes Scenario.crashed (mkQ 0 "/usr/bin/q"))) 1%nat);
      vm_compute; reflexivity.
Defined.

(** C9, at work: a timestamp, a negative time span and a string from
    the server. *)
Lemma C9_witness :
  (exists v, KQ.eval 0 (ExprStr ".z.p") [] Scenario.running
             = (Ok v, snd (KQ.eval 0 (ExprStr ".z.p") [] Scenario.running)) /\
             v = PdTimestamp 0) /\
  (exists v, KQ.eval 0 (ExprStr ".z.n") [] Scenario.running
             = (Ok v, snd (KQ.eval 0 (ExprStr ".z.n") [] Scenario.running)) /\
             v = PdTimedelta (-5)) /\
  (exists v, KQ.eval 0 (ExprStr "1+1") [] Scenario.running
             = (Ok v, snd (KQ.eval 0 (ExprStr "1+1") [] Scenario.running)) /\
             v = PyStr "1+1").
Proof.
  split; [|split].
  - refine (C9_temporal_results_coerced Scenario.running 0 (ExprStr ".z.p") []
              (QTemporal (NpDatetime64 0)) _ _).
    vm_compute. reflexivity.
  - refine (C9_temporal_results_coerced Scenario.running 0 (ExprStr ".z.n") []
              (QTemporal (NpTimedelta64 (-5))) _ _).
    vm_compute. reflexivity.
  - refine (C9_temporal_results_coerced Scenario.running 0 (ExprStr "1+1") []
              (PyStr "1+1") _ _).
    vm_compute. reflexivity.
Defined.

(** C10, at work: [stop] and [start('restart')] of the session that
    loaded [t.q]. *)
Lemma C10_witness :
  let w1 := snd (KQ.stop 0 Scenario.loaded) in
  let w2 := snd (KQ.start 0 StartRestart w1) in
  kqs w1 !! 0%nat = Some (set_loaded {["/home/kdb/t.q"]} Scenario.the_session) /\
  kqs w2 !! 0%nat = Some (set_loaded {["/home/kdb/t.q"]} Scenario.the_session) /\
  KQ.read_kdb 0 "t.q" w2 = (Ok PyNone, w2).
Proof.
  refine (C10_loaded_set_survives_restart Scenario.loaded 0
            (set_loaded {["/home/kdb/t.q"]} Scenario.the_session) StartRestart "t.q" _ _).
  - vm_compute. reflexivity.
  - vm_compute. reflexivity.
Defined.

(** [start] comes back, at work: the pooled session with the squatter
    on its port. *)
Lemma start_comes_back_witness :
  exists r w', KQ.start 0 StartTrue Scenario.squatted = (r, w') /\ r <> Stuck.
Proof.
  apply (start_comes_back Scenario.squatted 0 StartTrue).
  - exists Scenario.the_session, (mkKDB 0 None). vm_compute. done.
  - exists Scenario.the_session. split; [vm_compute; reflexivity|].
    exists (mkCredentials "localhost" 47823 "kdb" "" false (Some 0%nat)).
    split; [vm_compute; reflexivity|].
    intros _ it Hit. injection Hit as <-. vm_compute. eauto.
Defined.

(** Starting the running session again. *)
Lemma start_again_witness :
  Q.start (mkQ 0 "/usr/bin/q") StartTrue Scenario.running
    = (Ok tt, Scenario.running) /\
  let w' := snd (KQ.start 0 StartTrue Scenario.running) in
  ps w' = ps Scenario.running /\ processes w' = processes Scenario.running /\
  next_pid w' = next_pid Scenario.running.
Proof.
  apply (start_again_spawns_nothing Scenario.running 0 Scenario.the_session 1%nat);
    vm_compute; reflexivity.
Defined.

(** The fixed-port session with the squatter on its port. *)
Lemma fixed_port_conflict_witness :
  KQ.start 0 StartTrue Scenario.squatted_fixed
    = (Raise PortIsFixed, Scenario.squatted_fixed).
Proof.
  apply (fixed_port_conflict_spawns_nothing Scenario.squatted_fixed 0
           Scenario.the_session
           (mkCredentials "localhost" 47823 "kdb" "" true None) 77%nat StartTrue);
    try (vm_compute; reflexivity).
  discriminate.
Defined.

(** Copying [Credentials(port=47823)]. *)
Lemma copy_of_fixed_witness :
  fst (Credentials.__copy__ 0 Scenario.fixed_credentials) = Raise AttributeError.
Proof.
  apply (copy_of_fixed_raises Scenario.fixed_credentials 0
           (mkCredentials "localhost" 47823 "kdb" "" true None));
    reflexivity.
Defined.

End Instances.

(** ** The rest of the module: executables, processes, fixtures *)

Section Which_facts.
Variable isdir : string -> bool.
Variable listdir : string -> list string.
Variable basename : string -> string.
Variable join : string -> string -> string.
Variable split_pathsep : string -> list string.
Variable repr : string -> string.

Lemma which_in_listing_Some exe p names found :
  which_in_listing join exe p names = Some found ->
  found = join p exe /\ In exe names.
Proof.
  induction names as [|f names IH]; [done|]. simpl.
  destruct (String.eqb_spec f exe) as [->|Hne].
  - intros E. injection E as <-. split; [done|by left].
  - intros E. destruct (IH E) as [-> Hin]. split; [done|by right].
Qed.

Lemma which_in_listing_None exe p names :
  which_in_listing join exe p names = None -> ~ In exe names.
Proof.
  induction names as [|f names IH]; [by intros _ []|]. simpl.
  destruct (String.eqb_spec f exe) as [->|Hne]; [done|].
  intros E [Hin|Hin]; [done|by apply IH].
Qed.

Lemma which_on_path_Some exe path found :
  which_on_path isdir listdir basename join exe path = Some found ->
  exists before p after,
    path = before ++ p :: after /\
    lists isdir listdir basename exe p /\
    Forall (fun d => ~ lists isdir listdir basename exe d) before /\
    found = join p exe.
Proof.
  induction path as [|d path IH]; [done|]. simpl.
  destruct (isdir d) eqn:Hd.
  - destruct (which_in_listing join exe d _) as [r|] eqn:Hl.
    + intros E. injection E as <-. apply which_in_listing_Some in Hl as [-> Hin].
      exists [], d, path. by repeat split.
    + intros E. destruct (IH E) as (before & p & after & -> & Hp & Hb & ->).
      exists (d :: before), p, after. repeat split; try done.
      * apply Hp.
      * apply Hp.
      * constructor; [|done]. intros [_ Hin]. by apply which_in_listing_None in Hl.
  - intros E. destruct (IH E) as (before & p & after & -> & Hp & Hb & ->).
    exists (d :: before), p, after. repeat split; try done.
    + apply Hp.
    + apply Hp.
    + constructor; [|done]. intros [Hisdir _]. congruence.
Qed.

Lemma which_on_path_None exe path :
  which_on_path isdir listdir basename join exe path = None ->
  Forall (fun d => ~ lists isdir listdir basename exe d) path.
Proof.
  induction path as [|d path IH]; [by constructor|]. simpl.
  destruct (isdir d) eqn:Hd.
  - destruct (which_in_listing join exe d _) as [r|] eqn:Hl; [done|].
    intros E. constructor; [|by apply IH].
    intros [_ Hin]. by apply which_in_listing_None in Hl.
  - intros E. constructor; [|by apply IH]. intros [Hisdir _]. congruence.
Qed.

(** [which] returns the executable of the first directory of the search
    path that lists it, joined to that directory; names on the path
    that are no directories are passed over; and it raises [OSError]
    exactly when no directory of the path lists the executable. *)
Theorem which_finds_first_directory (environ_path : string) (exe : string) :
  match which isdir listdir basename join split_pathsep repr environ_path exe with
  | inr found =>
      exists before p after,
        split_pathsep environ_path = before ++ p :: after /\
        lists isdir listdir basename exe p /\
        Forall (fun d => ~ lists isdir listdir basename exe d) before /\
        found = join p exe
  | inl e =>
      e = OSError ("Cannot find " +:+ repr exe +:+ " on path " +:+ environ_path) /\
      Forall (fun d => ~ lists isdir listdir basename exe d)
        (split_pathsep environ_path)
  end.
Proof.
  unfold which.
  destruct (which_on_path isdir listdir basename join exe (split_pathsep environ_path))
    as [found|] eqn:E.
  - by apply which_on_path_Some.
  - split; [done|]. by apply which_on_path_None.
Qed.

End Which_facts.

Section Coverage.
Context `{Env}.

(** Reading the registry changes nothing. *)
Lemma processes_get_pure key w r w' :
  processes_get key w = (r, w') -> w' = w.
Proof.
  intros E. change w' with (snd (r, w')). rewrite <- E.
  apply (keeps_processes_get (fun w => w)).
Qed.

Lemma process_iter_scan_Some port table h :
  Q.process_iter_scan port table = Some h ->
  exists before proc after,
    table = before ++ proc :: after /\ os_pid proc = h /\
    listens_as_q port proc /\
    Forall (fun p => ~ listens_as_q port p) before.
Proof.
  induction table as [|d table IH]; [done|]. simpl.
  assert (Q.process_iter_scan port table = Some h -> ~ listens_as_q port d ->
          exists before proc after,
            d :: table = before ++ proc :: after /\ os_pid proc = h /\
            listens_as_q port proc /\
            Forall (fun p => ~ listens_as_q port p) before) as Hskip.
  { intros E Hd. destruct (IH E) as (before & proc & after & -> & Hp & Hl & Hb).
    exists (d :: before), proc, after. repeat split; try done; try apply Hl.
    by constructor. }
  destruct (os_name_denied d) eqn:Hnd.
  { intros E. apply Hskip; [done|]. intros (Hn & _). congruence. }
  destruct (String.eqb_spec (os_name d) "q") as [Hq|Hq];
    destruct (String.eqb_spec (os_name d) "q.exe") as [Hqe|Hqe]; simpl;
    try (destruct (os_conns_denied d) eqn:Hcd;
         [intros E; apply Hskip; [done|]; intros (_ & _ & Hc & _); congruence|];
         destruct (existsb _ _) eqn:Hex;
         [intros E; injection E as <-;
          apply existsb_exists in Hex as (p' & Hin & Heq);
          apply Z.eqb_eq in Heq; subst p';
          exists [], d, table; repeat split; auto
         |intros E; apply Hskip; [done|]; intros (_ & _ & _ & Hin);
          assert (existsb (fun p => (p =? port)%Z) (os_laddr_ports d) = true)
            by (apply existsb_exists; exists port; split; [done|apply Z.eqb_refl]);
          congruence]).
  intros E. apply Hskip; [done|]. intros (_ & [?|?] & _); done.
Qed.

Lemma process_iter_scan_None port table :
  Q.process_iter_scan port table = None ->
  Forall (fun p => ~ listens_as_q port p) table.
Proof.
  induction table as [|d table IH]; [by constructor|]. simpl.
  destruct (os_name_denied d) eqn:Hnd.
  { intros E. constructor; [|by apply IH]. intros (Hn & _). congruence. }
  destruct (String.eqb_spec (os_name d) "q") as [Hq|Hq];
    destruct (String.eqb_spec (os_name d) "q.exe") as [Hqe|Hqe]; simpl;
    try (destruct (os_conns_denied d) eqn:Hcd;
         [intros E; constructor; [|by apply IH]; intros (_ & _ & Hc & _); congruence|];
         destruct (existsb _ _) eqn:Hex; [done|];
         intros E; constructor; [|by apply IH]; intros (_ & _ & _ & Hin);
         assert (existsb (fun p => (p =? port)%Z) (os_laddr_ports d) = true)
           by (apply existsb_exists; exists port; split; [done|apply Z.eqb_refl]);
         congruence).
  intros E. constructor; [|by apply IH]. intros (_ & [?|?] & _); done.
Qed.

(** [find_running_process] returns the process the registry holds for
    the credentials without looking at the process table, be the
    process alive or not.  With nothing in the registry it returns the
    first process of the table that can be read, is named [q] or
    [q.exe] and has the credentials' port as a local port, and [None]
    when the table has no such process; it changes nothing. *)
Theorem find_running_process_finds (q : Q) (w : World) (c : Credentials) :
  creds w !! q_credentials q = Some c ->
  (forall h, Q.process q w = (Ok (Some h), w) ->
             Q.find_running_process q w = (Ok (Some h), w)) /\
  (Q.process q w = (Ok None, w) ->
   exists o,
     Q.find_running_process q w = (Ok o, w) /\
     match o with
     | Some h =>
         exists before proc after,
           ps w = before ++ proc :: after /\ os_pid proc = h /\
           listens_as_q (port c) proc /\
           Forall (fun p => ~ listens_as_q (port c) p) before
     | None => Forall (fun p => ~ listens_as_q (port c) p) (ps w)
     end).
Proof.
  intros Hc. split.
  - intros h Hp. unfold Q.find_running_process. by rewrite (bind_Ok _ _ _ _ _ Hp).
  - intros Hp. exists (Q.process_iter_scan (port c) (ps w)). split.
    + unfold Q.find_running_process. rewrite (bind_Ok _ _ _ _ _ Hp).
      unfold CredsMixin.port.
      by rewrite (bind_Ok _ _ _ _ _
                    (bind_Ok _ _ _ _ _ (deref_Some creds _ _ _ Hc))).
    + destruct (Q.process_iter_scan (port c) (ps w)) as [h|] eqn:E.
      * by apply process_iter_scan_Some.
      * by apply process_iter_scan_None.
Qed.

(** Draws within the pool return its ports in order. *)
Lemma draw_within_pool n : forall w self items,
  pooled w self items -> (n <= length items)%nat ->
  exists w', draw self n w = (Ok (take n items), w') /\
             pooled w' self (drop n items).
Proof.
  induction n as [|n IH]; intros w self items Hpool Hn.
  - exists w. by rewrite drop_0.
  - destruct items as [|p items]; [simpl in Hn; lia|].
    destruct (get_port_pooled _ _ _ _ Hpool) as (w1 & Hget & Hpool1 & _).
    destruct (IH w1 self items Hpool1) as (w2 & Hdraw & Hpool2);
      [simpl in Hn; lia|].
    exists w2. split; [|done]. cbn [draw].
    rewrite (bind_Ok _ _ _ _ _ Hget), (bind_Ok _ _ _ _ _ Hdraw). done.
Qed.

(** A new pooled instance holds one port of the hundred and can draw
    the other ninety-nine, no more: the hundredth call of
    [next(get_port())] raises [StopIteration] and changes nothing. *)
Theorem pooled_instance_draws_99_more (w0 : World) (h u pw : option string) :
  exists self w1 drawn w2,
    Credentials.__init__ h None u pw w0 = (Ok self, w1) /\
    draw self 99 w1 = (Ok drawn, w2) /\
    length drawn = 99%nat /\
    Credentials.get_port self w2 = (Raise StopIteration, w2).
Proof.
  destruct (init_pooled w0 h u pw) as (p0 & items & E & Hinit).
  cbv zeta in Hinit.
  destruct (shuffled_range (rng w0)) as (_ & _ & Hlen). rewrite E in Hlen.
  simpl in Hlen. assert (length items = 99%nat) as Hitems by lia.
  eexists _, _. 
  match type of Hinit with _ = (_, ?w1) =>
    assert (pooled w1 (length (creds w0)) items) as Hpool
  end.
  { unfold pooled. eexists _, _. lsimpl. split; [reflexivity|].
    cbn [ports is_fixed_port]. split; [reflexivity|]. split; [reflexivity|].
    by lsimpl. }
  destruct (draw_within_pool 99 _ _ _ Hpool) as (w2 & Hdraw & Hpool2); [lia|].
  exists (take 99 items), w2. split; [done|]. split; [done|]. split.
  - rewrite length_take. lia.
  - apply get_port_exhausted. by rewrite drop_ge in Hpool2 by lia.
Qed.

(** [KDB.stop] closes and clears the connection; a second [stop] finds
    nothing to do, and [is_started] is [False] after either. *)
Theorem KDB_stop_is_idempotent (w : World) (self : kdbref) (k : KDB) :
  kdbs w !! self = Some k ->
  exists w1,
    KDB.stop self w = (Ok tt, w1) /\
    kdbs w1 !! self = Some (mkKDB (kdb_credentials k) None) /\
    KDB.stop self w1 = (Ok tt, w1) /\
    KDB.is_started self w1 = (Ok false, w1).
Proof.
  intros Hk.
  assert (self < length (kdbs w))%nat by (by eapply lookup_lt_Some).
  assert (exists w1, KDB.stop self w = (Ok tt, w1) /\
                     kdbs w1 !! self = Some (mkKDB (kdb_credentials k) None))
    as (w1 & Hstop & Hk1).
  { unfold KDB.stop. rewrite (bind_Ok _ _ _ _ _ (deref_Some kdbs _ _ _ Hk)).
    destruct k as [kc [conn|]]; cbn [kdb_q].
    - rewrite (update_kdb_Ok _ _ _ _ Hk). eexists. split; [done|]. by lsimpl.
    - by exists w. }
  exists w1. split; [done|]. split; [done|]. split.
  - unfold KDB.stop. by rewrite (bind_Ok _ _ _ _ _ (deref_Some kdbs _ _ _ Hk1)).
  - unfold KDB.is_started. by rewrite (bind_Ok _ _ _ _ _ (deref_Some kdbs _ _ _ Hk1)).
Qed.

End Coverage.

(** Successive [gensym] names are made of distinct numbers. *)
Lemma gensyms_from n : forall syms x,
  In x (Conftest.gensyms n syms) ->
  exists i, (syms <= i)%nat /\ x = "sym" +:+ pretty i.
Proof.
  induction n as [|n IH]; intros syms x; [done|]. simpl.
  intros [<-|Hin]; [by exists syms|].
  destruct (IH _ _ Hin) as (i & Hi & ->). exists i. split; [lia|done].
Qed.

(** The names [gensym] hands out, one call after the other, are
    pairwise distinct, wherever the counter stands. *)
Theorem gensym_names_are_distinct (n syms : nat) :
  NoDup (Conftest.gensyms n syms).
Proof.
  revert syms. induction n as [|n IH]; intros syms; [constructor|]. simpl.
  constructor; [|apply IH].
  rewrite list_elem_of_In. intros Hin.
  destruct (gensyms_from _ _ _ Hin) as (i & Hi & E).
  apply (inj (String.app "sym")) in E. apply (inj pretty) in E. lia.
Qed.

(** ** Starting the process and the connection *)

Section Spawning.
Context `{Env}.

Lemma find_app_None {A} (f : A -> bool) l l' :
  List.find f l = None -> List.find f (l ++ l') = List.find f l'.
Proof.
  induction l as [|x l IH]; [done|]. simpl. destruct (f x); [done|apply IH].
Qed.

(** What [processes.get(key)] returns is a matter of the credentials and
    of the registry. *)
Lemma processes_get_eq key w c :
  creds w !! key = Some c ->
  processes_get key w =
    (Ok (pe_proc <$> List.find (entry_matches (creds w) key c) (processes w)), w).
Proof.
  intros Hc. unfold processes_get.
  by rewrite (bind_Ok _ _ _ _ _ (deref_Some creds _ _ _ Hc)).
Qed.

Lemma process_same_registry q w w' :
  creds w' = creds w -> processes w' = processes w ->
  fst (Q.process q w') = fst (Q.process q w).
Proof.
  intros Hc Hp. unfold Q.process, processes_get, bind, deref, get_world, ret.
  rewrite Hc. destruct (creds w !! q_credentials q); [|done]. simpl.
  by rewrite Hc, Hp.
Qed.

Lemma process_or_running_None q w :
  Q.process_or_running q w = (Ok None, w) -> Q.process q w = (Ok None, w).
Proof.
  unfold Q.process_or_running, bind.
  destruct (Q.process q w) as [[[h|]|e|] w1] eqn:E; try discriminate.
  intros _. unfold Q.process in E. by rewrite (processes_get_pure _ _ _ _ E).
Qed.

Lemma process_or_running_of_process q w h :
  Q.process q w = (Ok (Some h), w) ->
  Q.process_or_running q w = (Ok (Some h), w).
Proof.
  intros E. unfold Q.process_or_running. by rewrite (bind_Ok _ _ _ _ _ E).
Qed.

Lemma is_started_of_process q w h :
  Q.process q w = (Ok (Some h), w) -> Q.is_started q w = (Ok true, w).
Proof. intros E. unfold Q.is_started. by rewrite (bind_Ok _ _ _ _ _ E). Qed.

Lemma find_in_registry_None q w c :
  creds w !! q_credentials q = Some c ->
  Q.process_or_running q w = (Ok None, w) ->
  List.find (entry_matches (creds w) (q_credentials q) c) (processes w) = None.
Proof.
  intros Hc Hnone. pose proof (process_or_running_None _ _ Hnone) as Hproc.
  unfold Q.process in Hproc. rewrite (processes_get_eq _ _ _ Hc) in Hproc.
  injection Hproc as Hproc. by destruct (List.find _ _).
Qed.

Lemma Q_start_spawns_at q mode w c :
  creds w !! q_credentials q = Some c ->
  Q.process_or_running q w = (Ok None, w) ->
  Q.start q mode w = (Ok tt, after_spawn q c w).
Proof.
  intros Hc Hnone.
  pose proof (process_or_running_None _ _ Hnone) as Hproc.
  pose proof (find_in_registry_None _ _ _ Hc Hnone) as Hfind.
  assert (CredsMixin.port (q_credentials q) w = (Ok (port c), w)) as Hport.
  { unfold CredsMixin.port.
    by rewrite (bind_Ok _ _ _ _ _ (deref_Some creds _ _ _ Hc)). }
  assert (match mode with
          | StartTrue => p <- Q.process q ;; ret (bool_decide (is_Some p))
          | StartRestart => Q.stop q ;;; ret false
          | StartFalse => ret false
          end w = (Ok false, w)) as Hret.
  { destruct mode; [by rewrite (bind_Ok _ _ _ _ _ Hproc)| |done].
    unfold Q.stop. by rewrite (bind_Ok _ _ _ _ _ (bind_Ok _ _ _ _ _ Hnone)). }
  unfold Q.start. rewrite (bind_Ok _ _ _ _ _ Hret).
  rewrite (bind_Ok _ _ _ _ _ Hnone), (bind_Ok _ _ _ _ _ Hport).
  unfold bind at 1, Popen. unfold processes_set, bind, deref, get_world, modify.
  wsimpl. rewrite Hc. cbv beta iota. wsimpl. rewrite Hfind. reflexivity.
Qed.

(** With nothing owned and nothing found on the port, [Q.start] spawns,
    in every mode: one process more is in the table, a [q] that listens
    on the credentials' port; the registry gives its handle for the
    credentials; [stop] is registered for the exit of the program; and
    the objects are as they were. *)
Lemma Q_start_spawns q mode w c :
  creds w !! q_credentials q = Some c ->
  Q.process_or_running q w = (Ok None, w) ->
  exists w',
    Q.start q mode w = (Ok tt, w') /\
    ps w' = ps w ++ [spawned (next_pid w) (port c)] /\
    next_pid w' = S (next_pid w) /\
    atexit w' = atexit w ++ [q] /\
    objects w' = objects w /\
    Q.process q w' = (Ok (Some (next_pid w)), w').
Proof.
  intros Hc Hnone.
  pose proof (find_in_registry_None _ _ _ Hc Hnone) as Hfind.
  exists (after_spawn q c w).
  split; [by apply Q_start_spawns_at|].
  split; [done|split; [done|split; [done|split; [done|]]]].
  unfold Q.process. rewrite (processes_get_eq _ _ c) by done.
  unfold after_spawn. wsimpl. rewrite (find_app_None _ _ _ Hfind). cbn [List.find].
  unfold entry_matches at 1. cbn [pe_hash pe_key].
  by rewrite Z.eqb_refl, Nat.eqb_refl.
Qed.

(** A [Q.start] that returned either found the process it owns (mode
    [True]) or spawned from the store its preliminaries left. *)
Lemma Q_start_Ok_inv q mode w w' :
  Q.start q mode w = (Ok tt, w') ->
  (exists h, mode = StartTrue /\ w' = w /\ Q.process q w = (Ok (Some h), w)) \/
  (exists w1 c,
     creds w1 !! q_credentials q = Some c /\
     Q.process_or_running q w1 = (Ok None, w1) /\
     Q.start q StartFalse w1 = (Ok tt, w')).
Proof.
  unfold Q.start at 1. intros E.
  apply bind_Ok_inv in E as (returned & w1 & Hret & E).
  destruct returned.
  - left. injection E as <-. destruct mode.
    + apply bind_Ok_inv in Hret as (p & w2 & Hp & Hret). injection Hret as Hd <-.
      unfold Q.process in Hp. pose proof (processes_get_pure _ _ _ _ Hp) as ->.
      destruct p as [h|]; [|done]. by exists h.
    + apply bind_Ok_inv in Hret as (b & w2 & _ & Hret). discriminate.
    + discriminate.
  - right.
    apply bind_Ok_inv in E as (proc & w2 & Hfound & E').
    pose proof (process_or_running_pure _ _ _ _ Hfound) as ->.
    destruct (process_or_running_creds _ _ _ _ Hfound) as [c Hc].
    exists w1, c. split; [done|].
    assert (proc = None) as ->.
    { apply bind_Ok_inv in E' as (p & w3 & _ & E'). by destruct proc. }
    split; [done|].
    unfold Q.start. rewrite (bind_Ok (ret false) _ w1 false w1 eq_refl).
    by rewrite (bind_Ok _ _ _ _ _ Hfound).
Qed.

Lemma Q_start_Ok_process q mode w w' :
  Q.start q mode w = (Ok tt, w') ->
  exists h, Q.process q w' = (Ok (Some h), w') /\
            Q.is_started q w' = (Ok true, w').
Proof.
  intros E. destruct (Q_start_Ok_inv _ _ _ _ E)
    as [(h & _ & -> & Hp)|(w1 & c & Hc & Hnone & E1)].
  - exists h. split; [done|]. by apply (is_started_of_process _ _ h).
  - destruct (Q_start_spawns q StartFalse w1 c Hc Hnone)
      as (w2 & E2 & _ & _ & _ & _ & Hp).
    rewrite E2 in E1. injection E1 as <-.
    exists (next_pid w1). split; [done|]. by apply (is_started_of_process _ _ (next_pid w1)).
Qed.

(** After a [Q.start] that returned, in any mode, the [Q] is started:
    the registry gives a process for its credentials. *)
Theorem Q_start_makes_started (q : Q) (mode : StartArg) (w w' : World) :
  Q.start q mode w = (Ok tt, w') ->
  exists h, Q.process q w' = (Ok (Some h), w') /\
            Q.is_started q w' = (Ok true, w').
Proof. apply Q_start_Ok_process. Qed.


End Spawning.

Section Connecting.
Context `{Env}.

(** The rounds of [KDB.start] in which [open()] fails leave the store
    alone. *)
Lemma connect_fails self conn ntries left : forall i w,
  (forall j, (i <= j < i + left)%nat -> q_open w conn j = false) ->
  KDB.connect self conn ntries left i w
    = (Raise (ValueError (unable_to_connect ntries)), w).
Proof.
  induction left as [|left IH]; intros i w Hclosed; [done|]. cbn [KDB.connect].
  rewrite (bind_Ok get_world _ w w w eq_refl).
  rewrite Hclosed by lia. apply IH. intros j Hj. apply Hclosed. lia.
Qed.

Lemma connect_succeeds self conn ntries k left : forall i w n,
  kdbs w !! self = Some k ->
  (i <= n < i + left)%nat ->
  q_open w conn n = true ->
  (forall j, (i <= j < n)%nat -> q_open w conn j = false) ->
  KDB.connect self conn ntries left i w
    = (Ok tt, with_kdbs (<[self := set_kdb_q (Some (KDB.set_open true conn)) k]>
                           (kdbs w)) w).
Proof.
  induction left as [|left IH]; intros i w n Hk Hn Hopen Hclosed; [lia|].
  cbn [KDB.connect]. rewrite (bind_Ok get_world _ w w w eq_refl).
  destruct (decide (i = n)) as [->|Hne].
  - rewrite Hopen. by apply update_kdb_Ok.
  - rewrite Hclosed by lia. apply (IH (S i) w n); [done|lia|done|].
    intros j Hj. apply Hclosed. lia.
Qed.

Lemma connect_Ok_inv self conn ntries left : forall i w w',
  KDB.connect self conn ntries left i w = (Ok tt, w') ->
  exists k,
    kdbs w !! self = Some k /\
    w' = with_kdbs (<[self := set_kdb_q (Some (KDB.set_open true conn)) k]>
                      (kdbs w)) w.
Proof.
  induction left as [|left IH]; intros i w w'; [done|]. cbn [KDB.connect].
  rewrite (bind_Ok get_world _ w w w eq_refl).
  destruct (q_open w conn i); [|apply IH].
  unfold update_kdb, bind, deref, modify.
  destruct (kdbs w !! self) as [k|]; [|done].
  intros E. injection E as <-. by exists k.
Qed.


(** [KDB.start] builds a connection for the host, port, user name and
    password the credentials have at that moment, and tries [open()] up
    to [ntries] times.  If the [n]-th try is the first that completes,
    [start] returns and the [KDB] holds the open connection.  If none
    completes, [start] raises [ValueError], and the [KDB] is left
    holding the connection that never opened: [is_started] is [True]
    after the failure. *)
Theorem KDB_start_retries (w : World) (self : kdbref) (k : KDB)
    (c : Credentials) (ntries : nat) :
  kdbs w !! self = Some k ->
  creds w !! kdb_credentials k = Some c ->
  let conn := mkQConnection (host c) (port c) (username c) (password c) false in
  let w1 := with_kdbs (<[self := set_kdb_q (Some conn) k]> (kdbs w)) w in
  (forall n,
     (n < ntries)%nat ->
     q_open w1 conn n = true ->
     (forall j, (j < n)%nat -> q_open w1 conn j = false) ->
     exists w',
       KDB.start self ntries w = (Ok tt, w') /\
       kdbs w' !! self
         = Some (mkKDB (kdb_credentials k) (Some (KDB.set_open true conn))) /\
       KDB.is_started self w' = (Ok true, w')) /\
  ((forall j, (j < ntries)%nat -> q_open w1 conn j = false) ->
   KDB.start self ntries w
     = (Raise (ValueError (unable_to_connect ntries)), w1) /\
   kdbs w1 !! self = Some (mkKDB (kdb_credentials k) (Some conn)) /\
   KDB.is_started self w1 = (Ok true, w1)).
Proof.
  intros Hk Hc conn w1.
  assert (self < length (kdbs w))%nat as Hlt by (by eapply lookup_lt_Some).
  assert (kdbs w1 !! self = Some (set_kdb_q (Some conn) k)) as Hk1.
  { subst w1. by lsimpl. }
  assert (forall r, KDB.connect self conn ntries ntries 0 w1 = r ->
                    KDB.start self ntries w = r) as Hstart.
  { intros r <-. unfold KDB.start.
    rewrite (bind_Ok _ _ _ _ _ (deref_Some kdbs _ _ _ Hk)).
    rewrite (bind_Ok _ _ _ _ _ (deref_Some creds _ _ _ Hc)).
    by rewrite (bind_Ok _ _ _ _ _ (update_kdb_Ok _ _ _ _ Hk)). }
  split.
  - intros n Hn Hopen Hclosed. eexists. split; [|split].
    + apply Hstart. apply (connect_succeeds _ _ _ _ _ 0%nat w1 n Hk1); [lia|done|].
      intros j Hj. apply Hclosed. lia.
    + wsimpl. rewrite list_lookup_insert_eq; [done|]. subst w1. wsimpl.
      by rewrite length_insert.
    + unfold KDB.is_started, bind, deref. wsimpl.
      rewrite list_lookup_insert_eq; [done|]. subst w1. wsimpl.
      by rewrite length_insert.
  - intros Hclosed. split; [|split; [done|]].
    + apply Hstart. apply connect_fails. intros j Hj. apply Hclosed. lia.
    + unfold KDB.is_started. by rewrite (bind_Ok _ _ _ _ _ (deref_Some kdbs _ _ _ Hk1)).
Qed.

Lemma keeps_Q_start_refs q mode :
  keeps (fun w => (length (creds w), kdbs w, kqs w)) (Q.start q mode).
Proof. by apply keeps_Q_start. Qed.

(** A loop of [start] that returned ended with a [self.q.start] that
    returned, and left the references as they were. *)
Lemma start_loop_Ok_inv fuel kq mode : forall w w',
  KQ.start_loop fuel kq mode w = (Ok tt, w') ->
  exists w0,
    Q.start (kq_q kq) mode w0 = (Ok tt, w') /\
    (length (creds w0), kdbs w0, kqs w0) = (length (creds w), kdbs w, kqs w).
Proof.
  induction fuel as [|fuel IH]; intros w w'; [done|]. cbn [KQ.start_loop].
  unfold try_except.
  destruct (Q.start (kq_q kq) mode w) as [[[]|e|] w1] eqn:E1; [|  |done].
  - intros E. injection E as <-. by exists w.
  - assert ((length (creds w1), kdbs w1, kqs w1)
            = (length (creds w), kdbs w, kqs w)) as Hf1.
    { exact (kept _ _ _ _ _ (keeps_Q_start_refs (kq_q kq) mode) E1). }
    destruct e; try done. intros E.
    apply bind_Ok_inv in E as (fixed & w2 & Hfixed & E).
    assert (w2 = w1) as ->.
    { revert Hfixed. unfold CredsMixin.is_fixed_port. apply (kept (fun w => w)).
      keeps_tac. }
    destruct fixed; [done|].
    apply bind_Ok_inv in E as (p & w3 & Hget & E).
    pose proof (kept _ _ _ _ _ (keeps_get_port_refs (kq_credentials kq)) Hget) as Hf3.
    cbv beta in Hf3.
    destruct (IH _ _ E) as (w0 & Hq & Hf0). exists w0. split; [done|].
    by rewrite Hf0, Hf3.
Qed.

(** A [start] that returned: the last [self.q.start] returned in some
    store [w4], and the connection was opened from there. *)
Lemma start_Ok_inv w self mode w' kq :
  shares_credentials w self ->
  kqs w !! self = Some kq ->
  KQ.start self mode w = (Ok tt, w') ->
  exists k c w0 w4,
    kqs w' !! self = Some kq /\
    kdbs w' !! kq_kdb kq = Some k /\
    kdb_credentials k = kq_credentials kq /\
    creds w' !! kq_credentials kq = Some c /\
    kdb_q k = Some (mkQConnection (host c) (port c) (username c) (password c) true) /\
    Q.start (kq_q kq) mode w0 = (Ok tt, w4) /\
    (creds w', processes w', ps w') = (creds w4, processes w4, ps w4).
Proof.
  intros (kq' & k & Hkq' & Hk & Hqc & Hkc) Hkq E.
  rewrite Hkq in Hkq'. injection Hkq' as <-.
  unfold KQ.start in E.
  rewrite (bind_Ok _ _ _ _ _ (deref_Some kqs _ _ _ Hkq)) in E.
  rewrite (bind_Ok get_world _ w w w eq_refl) in E.
  apply bind_Ok_inv in E as ([] & w4 & Hloop & E).
  destruct (start_loop_Ok_inv _ _ _ _ _ Hloop) as (w0 & Hq0 & Hf0).
  assert ((length (creds w4), kdbs w4, kqs w4)
          = (length (creds w0), kdbs w0, kqs w0)) as Hf4.
  { exact (kept _ _ _ _ _ (keeps_Q_start_refs (kq_q kq) mode) Hq0). }
  rewrite Hf0 in Hf4. injection Hf4 as _ Hkdbs4 Hkqs4.
  assert (kdbs w4 !! kq_kdb kq = Some k) as Hk4 by by rewrite Hkdbs4.
  unfold KDB.start in E.
  rewrite (bind_Ok _ _ _ _ _ (deref_Some kdbs _ _ _ Hk4)) in E.
  apply bind_Ok_inv in E as (c & w5 & Hc & E).
  unfold deref in Hc. destruct (creds w4 !! kdb_credentials k) as [c4|] eqn:Hc4; [|done].
  injection Hc as <- <-.
  rewrite (bind_Ok _ _ _ _ _ (update_kdb_Ok _ _ _ _ Hk4)) in E.
  apply connect_Ok_inv in E as (k6 & Hk6 & ->).
  assert (kq_kdb kq < length (kdbs w4))%nat as Hlt by (by eapply lookup_lt_Some).
  assert (k6 = set_kdb_q (Some (mkQConnection (host c4) (port c4) (username c4)
                                  (password c4) false)) k) as ->.
  { revert Hk6. wsimpl. rewrite list_lookup_insert_eq by done. by intros [= <-]. }
  exists (set_kdb_q (Some (KDB.set_open true
            (mkQConnection (host c4) (port c4) (username c4) (password c4) false)))
            (set_kdb_q (Some (mkQConnection (host c4) (port c4) (username c4)
                                (password c4) false)) k)), c4, w0, w4.
  split; [by rewrite <- Hkqs4 in Hkq|]. split.
  { wsimpl. rewrite list_lookup_insert_eq; [done|]. by rewrite length_insert. }
  split; [done|]. split; [wsimpl; by rewrite <- Hkc|]. split; [done|].
  split; [done|]. by wsimpl.
Qed.

(** After a [start] that returned, the session is connected to what its
    credentials say at that moment: the connection is open, and its
    host, port, user name and password are those of the credentials,
    also when the port was moved on the way. *)
Theorem start_connects_to_credentials (w : World) (self : kqref)
    (mode : StartArg) (w' : World) :
  shares_credentials w self ->
  KQ.start self mode w = (Ok tt, w') ->
  exists kq k c,
    kqs w' !! self = Some kq /\
    kdbs w' !! kq_kdb kq = Some k /\
    creds w' !! kq_credentials kq = Some c /\
    kdb_q k = Some (mkQConnection (host c) (port c) (username c) (password c) true).
Proof.
  intros Hs E. pose proof Hs as (kq & _ & Hkq & _).
  destruct (start_Ok_inv _ _ _ _ _ Hs Hkq E) as (k & c & _ & _ & ? & ? & _ & ? & ? & _).
  by exists kq, k, c.
Qed.


End Connecting.

(** ** Sessions as context managers, construction, failed loads *)

Section Lifecycle.
Context `{Env}.

Lemma bind_assoc {A B C} (m : M A) (f : A -> M B) (g : B -> M C) w :
  bind (bind m f) g w = bind m (fun a => bind (f a) g) w.
Proof. unfold bind. by destruct (m w) as [[a|e|] w1]. Qed.

Lemma process_at q w o :
  fst (Q.process q w) = Ok o -> Q.process q w = (Ok o, w).
Proof.
  destruct (Q.process q w) as [r w1] eqn:E. simpl. intros ->.
  unfold Q.process in E. by rewrite (processes_get_pure _ _ _ _ E).
Qed.

Lemma KDB_stop_Ok w self k :
  kdbs w !! self = Some k -> exists w', KDB.stop self w = (Ok tt, w').
Proof.
  intros Hk. unfold KDB.stop.
  rewrite (bind_Ok _ _ _ _ _ (deref_Some kdbs _ _ _ Hk)).
  destruct (kdb_q k); [|by exists w].
  rewrite (update_kdb_Ok _ _ _ _ Hk). by eexists.
Qed.

(** [stop] of a session that owns a process, in a table without
    protected processes. *)
Lemma KQ_stop_owned w self kq k h :
  kqs w !! self = Some kq ->
  kdbs w !! kq_kdb kq = Some k ->
  Q.process (kq_q kq) w = (Ok (Some h), w) ->
  unprotected w ->
  exists w',
    KQ.stop self w = (Ok tt, w') /\ find_proc h (ps w') = None /\
    not_started w' self.
Proof.
  intros Hkq Hk Hproc Hun.
  destruct (KDB_stop_Ok _ _ _ Hk) as (w1 & Hkstop).
  assert ((creds w1, processes w1, ps w1) = (creds w, processes w, ps w)) as Hf.
  { revert Hkstop. apply (kept (fun w => (creds w, processes w, ps w))).
    by apply keeps_KDB_stop. }
  injection Hf as Hc1 Hp1 Hps1.
  assert (Q.process (kq_q kq) w1 = (Ok (Some h), w1)) as Hproc1.
  { apply process_at. rewrite (process_same_registry _ w) by done. by rewrite Hproc. }
  destruct (Q_stop_found (kq_q kq) w1 h) as (w2 & Hqstop & Hgone).
  { by apply process_or_running_of_process. }
  { unfold unprotected. by rewrite Hps1. }
  exists w2.
  assert (KQ.stop self w = (Ok tt, w2)) as Hstop.
  { unfold KQ.stop. rewrite (bind_Ok _ _ _ _ _ (deref_Some kqs _ _ _ Hkq)).
    rewrite (bind_Ok _ _ _ _ _ Hkstop). by rewrite (bind_Ok _ _ _ _ _ Hqstop). }
  split; [done|]. split; [done|].
  pose proof (stop_not_started w self kq k Hkq Hk) as Hns. by rewrite Hstop in Hns.
Qed.

(** A session as a context manager.  When [__enter__] has returned, be
    it that the session was started already or that it was started now,
    the session owns a process; and [__exit__] from there, in a table
    without protected processes, terminates that process, drops the
    connection, and returns [True], which is what makes the [with]
    statement swallow an exception of its body. *)
Theorem exit_stops_what_enter_started (w : World) (self : kqref) (w1 : World) :
  shares_credentials w self ->
  KQ.__enter__ self w = (Ok tt, w1) ->
  unprotected w1 ->
  exists kq h w2,
    kqs w1 !! self = Some kq /\
    Q.process (kq_q kq) w1 = (Ok (Some h), w1) /\
    KQ.__exit__ self w1 = (Ok true, w2) /\
    find_proc h (ps w2) = None /\
    not_started w2 self.
Proof.
  intros Hs Henter Hun. pose proof Hs as (kq & k & Hkq & Hk & Hqc & Hkc).
  assert (exists h k1, kqs w1 !! self = Some kq /\
                       kdbs w1 !! kq_kdb kq = Some k1 /\
                       Q.process (kq_q kq) w1 = (Ok (Some h), w1))
    as (h & k1 & Hkq1 & Hk1 & Hproc).
  { unfold KQ.__enter__ in Henter.
    apply bind_Ok_inv in Henter as (started & w0 & Hst & Henter).
    assert (w0 = w) as ->.
    { revert Hst. apply (kept (fun w => w)). unfold KQ.is_started, Q.is_started,
        KDB.is_started, Q.process.
      pose proof (keeps_processes_get (fun w => w)). keeps_tac. }
    destruct started.
    - injection Henter as <-. unfold KQ.is_started in Hst.
      rewrite (bind_Ok _ _ _ _ _ (deref_Some kqs _ _ _ Hkq)) in Hst.
      apply bind_Ok_inv in Hst as (a & w0 & Ha & Hst).
      destruct a; [|done]. unfold Q.is_started in Ha.
      apply bind_Ok_inv in Ha as (p & w3 & Hp & Ha).
      injection Ha as Ha _. destruct p as [h|]; [|done].
      exists h, k. split; [done|]. split; [done|]. apply process_at. by rewrite Hp.
    - destruct (start_Ok_inv _ _ _ _ _ Hs Hkq Henter)
        as (k1 & c & w0 & w4 & Hkq1 & Hk1 & _ & _ & _ & Hq & Hf).
      injection Hf as Hc Hp _.
      destruct (Q_start_Ok_process _ _ _ _ Hq) as (h & Hproc & _).
      exists h, k1. split; [done|]. split; [done|].
      apply process_at. rewrite (process_same_registry _ w4) by done. by rewrite Hproc. }
  destruct (KQ_stop_owned _ _ _ _ _ Hkq1 Hk1 Hproc Hun) as (w2 & Hstop & Hgone & Hns).
  exists kq, h, w2. split; [done|]. split; [done|]. split; [|done].
  unfold KQ.__exit__. by rewrite (bind_Ok _ _ _ _ _ Hstop).
Qed.

(** When the server answers the load directive with an error, [read_kdb]
    raises that error with the directive sent and the file not recorded
    as loaded: the next [read_kdb] of the file sends the directive
    again. *)
Theorem failed_load_is_not_recorded (w : World) (self : kqref) (kq : KQ)
    (k : KDB) (conn : QConnection) (filename : string) (e : Exc) :
  kqs w !! self = Some kq ->
  kdbs w !! kq_kdb kq = Some k ->
  kdb_q k = Some conn ->
  conn_open conn = true ->
  normpath (abspath filename) ∉ _loaded kq ->
  q_sync w (mkRequest (conn_port conn) (load_directive filename) []) = inl e ->
  let rq := mkRequest (conn_port conn) (load_directive filename) [] in
  let w1 := with_wire (wire w ++ [rq]) w in
  KQ.read_kdb self filename w = (Raise e, w1) /\
  kqs w1 !! self = Some kq /\
  wire (snd (KQ.read_kdb self filename w1)) = wire w ++ [rq; rq].
Proof.
  intros Hkq Hk Hq Hopen Hnin Hsync rq w1.
  assert (forall w0, kqs w0 !! self = Some kq -> kdbs w0 !! kq_kdb kq = Some k ->
            KQ.read_kdb self filename w0 =
              (result <- (raw <- KDB.sync conn (load_directive filename) [] ;;
                          ret (KDB.coerce raw)) ;;
               kq <- deref kqs self ;;
               update_kq self (set_loaded (_loaded kq ∪ {[normpath (abspath filename)]})) ;;;
               ret result) w0) as Hread.
  { intros w0 Hkq0 Hk0.
    assert (KQ.eval self (ExprStr (load_directive filename)) [] w0
            = (raw <- KDB.sync conn (load_directive filename) [] ;;
               ret (KDB.coerce raw)) w0) as Heval.
    { unfold KQ.eval. rewrite (bind_Ok _ _ _ _ _ (deref_Some kqs _ _ _ Hkq0)).
      unfold KDB.eval, KDB.raw_result. rewrite bind_assoc.
      rewrite (bind_Ok _ _ _ _ _ (deref_Some kdbs _ _ _ Hk0)). by rewrite Hq. }
    unfold KQ.read_kdb.
    rewrite (bind_Ok _ _ _ _ _ (deref_Some kqs _ _ _ Hkq0)).
    rewrite bool_decide_eq_false_2 by done.
    unfold bind at 1. fold (load_directive filename). rewrite Heval. reflexivity. }
  split; [|split; [done|]].
  - rewrite Hread by done. apply bind_Raise, bind_Raise.
    unfold KDB.sync. rewrite Hopen.
    rewrite (bind_Ok get_world _ w w w eq_refl).
    rewrite Hsync. reflexivity.
  - rewrite Hread by done.
    unfold KDB.sync. rewrite Hopen.
    unfold bind, get_world, modify, ret, raise, deref, update_kq, bind, deref, modify.
    subst w1 rq. wsimpl.
    destruct (q_sync (with_wire _ w) _); wsimpl; [by rewrite <- app_assoc|].
    rewrite Hkq. wsimpl. rewrite Hkq. wsimpl. by rewrite <- app_assoc.
Qed.

(** A session constructed with [start] ([True] or ['restart']), when the
    constructor returns: the library file exists, its normal form is
    the one file in the loaded-set, and the session is connected. *)
Theorem constructed_started_has_library (credentials : option cref)
    (mode : StartArg) (path : option string) (verbose : bool)
    (w : World) (self : kqref) (w' : World) :
  mode <> StartFalse ->
  KQ.__init__ credentials mode path verbose w = (Ok self, w') ->
  path_exists (path_join libpath "lib.q") = true /\
  exists kq k conn,
    kqs w' !! self = Some kq /\
    _loaded kq = {[normpath (abspath (normpath (path_join libpath "lib.q")))]} /\
    kdbs w' !! kq_kdb kq = Some k /\
    kdb_q k = Some conn /\ conn_open conn = true.
Proof.
  intros Hmode E. unfold KQ.__init__ in E.
  apply bind_Ok_inv in E as (c & w1 & Hc & E).
  apply bind_Ok_inv in E as (q & w2 & Hq & E).
  apply bind_Ok_inv in E as (kdb & w3 & Hk & E).
  apply bind_Ok_inv in E as (s & w4 & Hs & E).
  apply bind_Ok_inv in E as ([] & w5 & Hstart & E). injection E as <- <-.
  unfold Q.__init__ in Hq. apply bind_Ok_inv in Hq as (pth & w2' & _ & Hq).
  injection Hq as <- <-.
  unfold KDB.__init__, alloc_kdb in Hk. injection Hk as <- <-.
  unfold alloc_kq in Hs. injection Hs as <- <-.
  set (kq := mkKQ verbose c (mkQ c pth) (length (kdbs w2')) ∅) in *.
  set (w4 := with_kqs (kqs w2' ++ [kq])
               (with_kdbs (kdbs w2' ++ [mkKDB c None]) w2')) in *.
  assert (kqs w4 !! length (kqs w2') = Some kq) as Hkq by (subst w4; by lsimpl).
  assert (shares_credentials w4 (length (kqs w2'))) as Hshare.
  { exists kq, (mkKDB c None). split; [done|]. subst w4 kq. cbn [kq_kdb]. by lsimpl. }
  assert ((KQ.start (length (kqs w2')) mode ;;; KQ.load_libs (length (kqs w2'))) w4
          = (Ok tt, w5)) as Hrun by (by destruct mode).
  clear Hstart. apply bind_Ok_inv in Hrun as ([] & w6 & Hstart & Hlibs).
  destruct (start_Ok_inv _ _ _ _ _ Hshare Hkq Hstart)
    as (k & c6 & _ & _ & Hkq6 & Hk6 & _ & _ & Hconn & _).
  unfold KQ.load_libs in Hlibs.
  destruct (path_exists (path_join libpath "lib.q")) eqn:Hex; [|done].
  split; [done|].
  apply bind_Ok_inv in Hlibs as (r & w7 & Hread & Hret). injection Hret as <-.
  assert (kdbs w7 = kdbs w6) as Hkdbs.
  { revert Hread. apply kept. unfold KQ.read_kdb.
    apply keeps_bind; [keeps_tac|intros kq0].
    destruct (bool_decide _); [keeps_tac|].
    apply keeps_bind.
    { unfold KQ.eval. apply keeps_bind; [keeps_tac|intros ?]. by apply keeps_KDB_eval. }
    intros ?. unfold update_kq. keeps_tac. }
  assert (normpath (abspath (normpath (path_join libpath "lib.q"))) ∉ _loaded kq)
    as Hnin by apply not_elem_of_empty.
  destruct (read_kdb_fresh _ _ _ _ _ _ Hkq6 Hnin Hread) as [_ Hkq7].
  eexists _, k, _. split; [exact Hkq7|]. cbn [_loaded set_loaded].
  split; [subst kq; cbn [_loaded]; by rewrite (left_id_L ∅ (∪))|].
  split; [by rewrite Hkdbs|]. by split.
Qed.

End Lifecycle.

(** ** One registry for all, and what [stop] takes down *)

Section Sharing.
Context `{Env}.

Lemma kill_all_exact hs : forall w,
  unprotected w ->
  exists w',
    Q.kill_all hs w = (Ok tt, w') /\
    forall p, In p (ps w') <-> In p (ps w) /\ ~ In (os_pid p) hs.
Proof.
  induction hs as [|h hs IH]; intros w Hun; simpl.
  - exists w. split; [done|]. intros p. tauto.
  - destruct (killp_unprotected h w Hun) as (w1 & Hk & Hps).
    destruct (IH w1) as (w2 & Hk2 & Hps2).
    { apply (unprotected_shrink w); [done|]. intros p Hp. by apply Hps. }
    exists w2. split; [by rewrite (bind_Ok _ _ _ _ _ Hk)|].
    intros p. rewrite Hps2, Hps. intuition congruence.
Qed.

(** [stop] of a process that is in the table, when no process refuses
    termination: what is left of the table are the processes that
    neither are the process nor bear the process id of one of its direct
    children.  Everything else, the children of the children among
    them, goes on running. *)
Theorem stop_terminates_process_and_children (q : Q) (w : World) (h : pid) :
  Q.process_or_running q w = (Ok (Some h), w) ->
  unprotected w ->
  is_Some (find_proc h (ps w)) ->
  exists w',
    Q.stop q w = (Ok true, w') /\
    forall p,
      In p (ps w') <->
      In p (ps w) /\ os_pid p <> h /\
      ~ exists c, In c (ps w) /\ os_ppid c = h /\ os_pid c = os_pid p.
Proof.
  intros Hfound Hun [p0 Hp0].
  destruct (process_or_running_creds _ _ _ _ Hfound) as [c Hc].
  set (cs := List.map os_pid (List.filter (fun p => Nat.eqb (os_ppid p) h) (ps w))).
  destruct (kill_all_exact cs w Hun) as (w1 & Hk & Hps1).
  assert (try_except (cs <- children h ;; Q.kill_all cs)
            (fun e => match e with NoSuchProcess => Some (ret tt) | _ => None end) w
          = (Ok tt, w1)) as Hstep1.
  { unfold try_except, bind, children. rewrite Hp0. fold cs. by rewrite Hk. }
  assert (creds w1 = creds w) as Hcreds1.
  { revert Hk. apply kept. by apply keeps_kill_all. }
  destruct (killp_unprotected h w1) as (w2 & Hstep2 & Hps2).
  { apply (unprotected_shrink w); [done|]. intros p Hp. by apply Hps1. }
  assert (creds w2 = creds w1) as Hcreds2.
  { revert Hstep2. apply kept. by apply keeps_killp. }
  destruct (processes_del_swallowed (q_credentials q) w2 c) as (w3 & Hstep3 & Hps3).
  { by rewrite Hcreds2, Hcreds1. }
  exists w3. split.
  - unfold Q.stop. rewrite (bind_Ok _ _ _ _ _ Hfound).
    rewrite (bind_Ok _ _ _ _ _ Hstep1), (bind_Ok _ _ _ _ _ Hstep2).
    by rewrite (bind_Ok _ _ _ _ _ Hstep3).
  - intros p. rewrite Hps3, Hps2, Hps1.
    assert (In (os_pid p) cs <->
            exists c, In c (ps w) /\ os_ppid c = h /\ os_pid c = os_pid p) as ->.
    { subst cs. rewrite in_map_iff. split.
      - intros (c0 & Hpid & Hin). apply filter_In in Hin as [Hin Hpp].
        apply Nat.eqb_eq in Hpp. by exists c0.
      - intros (c0 & Hin & Hpp & Hpid). exists c0. split; [done|].
        apply filter_In. split; [done|]. by apply Nat.eqb_eq. }
    tauto.
Qed.


End Sharing.

(** ** The rest of the module, at work *)

Section More_instances.

#[local] Existing Instance ref_env.

Local Open Scope Z_scope.

(** [find_running_process] of the running session gives the session's
    own process; with the squatter on the port of the session that was
    not started, it gives a process of the table that listens there. *)
Lemma find_running_process_witness :
  Q.find_running_process (mkQ 0 "/usr/bin/q") Scenario.running
    = (Ok (Some 1%nat), Scenario.running) /\
  exists o,
    Q.find_running_process (mkQ 0 "/usr/bin/q") Scenario.squatted
      = (Ok o, Scenario.squatted) /\
    match o with
    | Some h =>
        exists before proc after,
          ps Scenario.squatted = before ++ proc :: after /\ os_pid proc = h /\
          listens_as_q 47823 proc /\
          Forall (fun p => ~ listens_as_q 47823 p) before
    | None => Forall (fun p => ~ listens_as_q 47823 p) (ps Scenario.squatted)
    end.
Proof.
  split.
  - apply (proj1 (find_running_process_finds (mkQ 0 "/usr/bin/q") Scenario.running
                    (mkCredentials "localhost" 47823 "kdb" "" false (Some 0%nat))
                    eq_refl)).
    vm_compute. reflexivity.
  - apply (proj2 (find_running_process_finds (mkQ 0 "/usr/bin/q") Scenario.squatted
                    (mkCredentials "localhost" 47823 "kdb" "" false (Some 0%nat))
                    eq_refl)).
    vm_compute. reflexivity.
Defined.

(** [KDB.stop] of the running session, twice. *)
Lemma KDB_stop_witness :
  exists w1,
    KDB.stop 0 Scenario.running = (Ok tt, w1) /\
    kdbs w1 !! 0%nat = Some (mkKDB 0 None) /\
    KDB.stop 0 w1 = (Ok tt, w1) /\
    KDB.is_started 0 w1 = (Ok false, w1).
Proof.
  apply (KDB_stop_is_idempotent Scenario.running 0
           (mkKDB 0 (Some (mkQConnection "localhost" 47823 "kdb" "" true)))).
  vm_compute. reflexivity.
Defined.

(** [Q.start] of the session that was not started. *)
Lemma Q_start_makes_started_witness :
  let w' := snd (Q.start (mkQ 0 "/usr/bin/q") StartTrue Scenario.unstarted) in
  exists h, Q.process (mkQ 0 "/usr/bin/q") w' = (Ok (Some h), w') /\
            Q.is_started (mkQ 0 "/usr/bin/q") w' = (Ok true, w').
Proof.
  apply (Q_start_makes_started (mkQ 0 "/usr/bin/q") StartTrue Scenario.unstarted).
  vm_compute. reflexivity.
Defined.


(** [KDB.start] against a server that answers the third [open()], and
    against one that never answers. *)
Lemma KDB_start_retries_witness :
  let conn := mkQConnection "localhost" 47823 "kdb" "" false in
  let w1 := with_kdbs (<[0%nat := mkKDB 0 (Some conn)]> (kdbs Scenario.unstarted))
              Scenario.unstarted in
  (exists w',
     KDB.start (H:=slow_env) 0 1000 Scenario.unstarted = (Ok tt, w') /\
     kdbs w' !! 0%nat = Some (mkKDB 0 (Some (KDB.set_open true conn))) /\
     KDB.is_started 0 w' = (Ok true, w')) /\
  KDB.start (H:=unreachable_env) 0 1000 Scenario.unstarted
    = (Raise (ValueError (unable_to_connect 1000)), w1) /\
  kdbs w1 !! 0%nat = Some (mkKDB 0 (Some conn)) /\
  KDB.is_started 0 w1 = (Ok true, w1).
Proof.
  split.
  - apply (proj1 (KDB_start_retries (H:=slow_env) Scenario.unstarted 0 (mkKDB 0 None)
                    (mkCredentials "localhost" 47823 "kdb" "" false (Some 0%nat))
                    1000 eq_refl eq_refl) 2%nat).
    + apply Nat.ltb_lt. vm_compute. reflexivity.
    + reflexivity.
    + intros [|[|j]] Hj; [reflexivity|reflexivity|]. exfalso.
      apply Nat.ltb_lt in Hj. discriminate Hj.
  - apply (proj2 (KDB_start_retries (H:=unreachable_env) Scenario.unstarted 0
                    (mkKDB 0 None)
                    (mkCredentials "localhost" 47823 "kdb" "" false (Some 0%nat))
                    1000 eq_refl eq_refl)).
    intros j _. reflexivity.
Defined.

(** [start] of the pooled session with the squatter on its port: the
    connection goes to 47824. *)
Lemma start_connects_witness :
  let w' := snd (KQ.start 0 StartTrue Scenario.squatted) in
  exists kq k c,
    kqs w' !! 0%nat = Some kq /\
    kdbs w' !! kq_kdb kq = Some k /\
    creds w' !! kq_credentials kq = Some c /\
    kdb_q k = Some (mkQConnection (host c) (port c) (username c) (password c) true).
Proof.
  apply (start_connects_to_credentials Scenario.squatted 0 StartTrue).
  - exists Scenario.the_session, (mkKDB 0 None). vm_compute. done.
  - vm_compute. reflexivity.
Defined.


(** [with KQ() as kq: ...]. *)
Lemma exit_stops_witness :
  let w1 := snd (KQ.__enter__ 0 Scenario.unstarted) in
  exists kq h w2,
    kqs w1 !! 0%nat = Some kq /\
    Q.process (kq_q kq) w1 = (Ok (Some h), w1) /\
    KQ.__exit__ 0 w1 = (Ok true, w2) /\
    find_proc h (ps w2) = None /\
    not_started w2 0.
Proof.
  apply (exit_stops_what_enter_started Scenario.unstarted 0).
  - exists Scenario.the_session, (mkKDB 0 None). vm_compute. done.
  - vm_compute. reflexivity.
  - unfold unprotected. vm_compute. repeat constructor.
Defined.

(** [read_kdb('t.q')] in the running session, against a server that
    answers every request with an error. *)
Lemma failed_load_witness :
  let rq := mkRequest 47823 (load_directive "t.q") [] in
  let w1 := with_wire (wire Scenario.running ++ [rq]) Scenario.running in
  KQ.read_kdb (H:=refusing_env) 0 "t.q" Scenario.running
    = (Raise (QException "nyi"), w1) /\
  kqs w1 !! 0%nat = Some Scenario.the_session /\
  wire (snd (KQ.read_kdb (H:=refusing_env) 0 "t.q" w1))
    = wire Scenario.running ++ [rq; rq].
Proof.
  apply (failed_load_is_not_recorded (H:=refusing_env) Scenario.running 0
           Scenario.the_session
           (mkKDB 0 (Some (mkQConnection "localhost" 47823 "kdb" "" true)))
           (mkQConnection "localhost" 47823 "kdb" "" true) "t.q" (QException "nyi"));
    try (vm_compute; reflexivity).
  apply not_elem_of_empty.
Defined.

(** [KQ(start=True)]. *)
Lemma constructed_started_witness :
  let w' := snd (KQ.__init__ None StartTrue None false empty_world) in
  path_exists (path_join libpath "lib.q") = true /\
  exists kq k conn,
    kqs w' !! 0%nat = Some kq /\
    _loaded kq = {[normpath (abspath (normpath (path_join libpath "lib.q")))]} /\
    kdbs w' !! kq_kdb kq = Some k /\
    kdb_q k = Some conn /\ conn_open conn = true.
Proof.
  apply (constructed_started_has_library None StartTrue None false empty_world 0).
  - discriminate.
  - vm_compute. reflexivity.
Defined.

(** [stop] of the running session whose q process has a child, which
    has a child of its own. *)
Lemma stop_terminates_witness :
  let w := with_ps (ps Scenario.running ++
                    [mkOsProc 5 1 "sh" false false [] false;
                     mkOsProc 6 5 "sh" false false [] false]) Scenario.running in
  exists w',
    Q.stop (mkQ 0 "/usr/bin/q") w = (Ok true, w') /\
    forall p,
      In p (ps w') <->
      In p (ps w) /\ os_pid p <> 1%nat /\
      ~ exists c, In c (ps w) /\ os_ppid c = 1%nat /\ os_pid c = os_pid p.
Proof.
  apply (stop_terminates_process_and_children (mkQ 0 "/usr/bin/q")
           (with_ps (ps Scenario.running ++
                     [mkOsProc 5 1 "sh" false false [] false;
                      mkOsProc 6 5 "sh" false false [] false]) Scenario.running)
           1%nat).
  - vm_compute. reflexivity.
  - unfold unprotected. vm_compute. repeat constructor.
  - eexists. vm_compute. reflexivity.
Defined.


End More_instances.
